(** * A shallow embedding of the ruchess game core (src-tauri/src/game)

    Rust [usize] coordinates are [nat]; the [i32] deltas, depths and scores are
    [Z]. The fixed array [[[Option<Piece>; 8]; 8]] of [ChessBoard] is a function
    from row and column to a cell (only indices below 8 are ever read); the
    [Vec<Vec<Option<Square>>>] grid read by [Square::calculate_moves] is a list
    of lists accessed with [nth_error], as [Vec::get] does. A [&mut self]
    method returns its result together with the updated value. *)

From Stdlib Require Import ZArith List String Bool Lia.
Import ListNotations.
Open Scope nat_scope.

(** [Result<T, String>] *)
Inductive result (A : Type) : Type :=
| Ok (a : A)
| Err (e : string).
Arguments Ok {A} a.
Arguments Err {A} e.

(** ** piece.rs *)

Inductive PieceType := Pawn | Rook | Knight | Bishop | Queen | King.

Inductive Color := White | Black.

(** The derived [PartialEq] instances. *)
Definition PieceType_eqb (a b : PieceType) : bool :=
  match a, b with
  | Pawn, Pawn | Rook, Rook | Knight, Knight
  | Bishop, Bishop | Queen, Queen | King, King => true
  | _, _ => false
  end.

Definition Color_eqb (a b : Color) : bool :=
  match a, b with
  | White, White | Black, Black => true
  | _, _ => false
  end.

Definition opposite (c : Color) : Color :=
  match c with White => Black | Black => White end.

Definition BOARD_SIZE : nat := 8.

Record Position := mkPosition { x : nat; y : nat }.

Definition Position_eqb (p q : Position) : bool :=
  Nat.eqb (x p) (x q) && Nat.eqb (y p) (y q).

(** [Position::apply_delta] *)
Definition apply_delta (p : Position) (dx dy : Z) : option Position :=
  let new_x := (Z.of_nat (x p) + dx)%Z in
  let new_y := (Z.of_nat (y p) + dy)%Z in
  if (0 <=? new_x)%Z && (new_x <? Z.of_nat BOARD_SIZE)%Z
     && (0 <=? new_y)%Z && (new_y <? Z.of_nat BOARD_SIZE)%Z
  then Some (mkPosition (Z.to_nat new_x) (Z.to_nat new_y))
  else None.

Record Piece := mkPiece { piece_type : PieceType; color : Color }.

Record Square := mkSquare { sq_x : nat; sq_y : nat; piece : option Piece }.

Definition SquareGrid := list (list (option Square)).

(** [board.get(pos.y).and_then(|row| row.get(pos.x)).and_then(|s| s.as_ref())] *)
Definition grid_square (pos : Position) (board : SquareGrid) : option Square :=
  match nth_error board (y pos) with
  | Some row =>
      match nth_error row (x pos) with
      | Some (Some sq) => Some sq
      | _ => None
      end
  | None => None
  end.

(** [Square::is_empty_square] *)
Definition is_empty_square (pos : Position) (board : SquareGrid) : bool :=
  match grid_square pos board with
  | Some sq => match piece sq with None => true | Some _ => false end
  | None => false
  end.

(** [Square::can_capture_at] *)
Definition can_capture_at (pos : Position) (board : SquareGrid) (c : Color) : bool :=
  match grid_square pos board with
  | Some sq =>
      match piece sq with
      | Some pc => negb (Color_eqb (color pc) c)
      | None => false
      end
  | None => false
  end.

(** [Square::add_moves]: the positions pushed, in push order. *)
Fixpoint add_moves (moves : list (Z * Z)) (position : Position) (board : SquareGrid)
    (c : Color) (only_empty : bool) : list Position :=
  match moves with
  | [] => []
  | (dx, dy) :: rest =>
      match apply_delta position dx dy with
      | Some new_pos =>
          if only_empty then
            if is_empty_square new_pos board then [new_pos] else []
          else if is_empty_square new_pos board || can_capture_at new_pos board c
          then [new_pos] else []
      | None => []
      end ++ add_moves rest position board c only_empty
  end.

(** One ray of [Square::add_line_moves], from [step] on. The Rust [loop] leaves
    by its bounds check after at most [BOARD_SIZE] steps from an on-board
    position, so [BOARD_SIZE] units of fuel never run out there. *)
Fixpoint line_ray (fuel : nat) (step : Z) (dx dy : Z) (position : Position)
    (board : SquareGrid) (c : Color) : list Position :=
  match fuel with
  | O => []
  | S fuel' =>
      let new_x := (Z.of_nat (x position) + dx * step)%Z in
      let new_y := (Z.of_nat (y position) + dy * step)%Z in
      if (new_x <? 0)%Z || (Z.of_nat BOARD_SIZE <=? new_x)%Z
         || (new_y <? 0)%Z || (Z.of_nat BOARD_SIZE <=? new_y)%Z
      then []
      else
        let new_pos := mkPosition (Z.to_nat new_x) (Z.to_nat new_y) in
        match nth_error board (Z.to_nat new_y) with
        | Some row =>
            match nth_error row (Z.to_nat new_x) with
            | Some (Some target_square) =>
                match piece target_square with
                | Some pc =>
                    if Color_eqb (color pc) c then [] else [new_pos]
                | None => new_pos :: line_ray fuel' (step + 1) dx dy position board c
                end
            | _ => []
            end
        | None => []
        end
  end.

(** [Square::add_line_moves] *)
Fixpoint add_line_moves (directions : list (Z * Z)) (position : Position)
    (board : SquareGrid) (c : Color) : list Position :=
  match directions with
  | [] => []
  | (dx, dy) :: rest =>
      line_ray BOARD_SIZE 1 dx dy position board c
      ++ add_line_moves rest position board c
  end.

Definition knight_moves : list (Z * Z) :=
  [(2, 1); (2, -1); (-2, 1); (-2, -1); (1, 2); (1, -2); (-1, 2); (-1, -2)]%Z.

Definition king_moves : list (Z * Z) :=
  [(1, 1); (1, 0); (1, -1); (0, 1); (0, -1); (-1, 1); (-1, 0); (-1, -1)]%Z.

Definition rook_dirs : list (Z * Z) := [(0, 1); (1, 0); (0, -1); (-1, 0)]%Z.
Definition bishop_dirs : list (Z * Z) := [(1, 1); (1, -1); (-1, -1); (-1, 1)]%Z.
Definition queen_dirs : list (Z * Z) :=
  [(1, 1); (1, 0); (1, -1); (0, 1); (0, -1); (-1, 1); (-1, 0); (-1, -1)]%Z.

(** The pawn arm of [Square::calculate_moves]. *)
Definition pawn_moves (pc : Piece) (position : Position) (board : SquareGrid)
    : list Position :=
  let direction := if Color_eqb (color pc) White then (-1)%Z else 1%Z in
  let start_row := if Color_eqb (color pc) White then 6 else 1 in
  match apply_delta position 0 direction with
  | Some new_pos =>
      if is_empty_square new_pos board then
        new_pos ::
          (if Nat.eqb (y position) start_row then
             match apply_delta position 0 (2 * direction) with
             | Some double_pos =>
                 if is_empty_square double_pos board then [double_pos] else []
             | None => []
             end
           else [])
      else []
  | None => []
  end
  ++ flat_map (fun dx =>
       match apply_delta position dx direction with
       | Some capture_pos =>
           if can_capture_at capture_pos board (color pc) then [capture_pos] else []
       | None => []
       end) [(-1)%Z; 1%Z].

(** [Square::calculate_moves] *)
Definition calculate_moves (self : Square) (position : Position) (board : SquareGrid)
    : list Position :=
  match piece self with
  | None => []
  | Some pc =>
      match piece_type pc with
      | Knight => add_moves knight_moves position board (color pc) false
      | Pawn => pawn_moves pc position board
      | Rook => add_line_moves rook_dirs position board (color pc)
      | Bishop => add_line_moves bishop_dirs position board (color pc)
      | Queen => add_line_moves queen_dirs position board (color pc)
      | King => add_moves king_moves position board (color pc) false
      end
  end.

(** ** board.rs *)

(** [[[Option<Piece>; 8]; 8]], indexed [[row][col]]. *)
Definition Grid := nat -> nat -> option Piece.

Definition set_cell (g : Grid) (row col : nat) (v : option Piece) : Grid :=
  fun r c => if Nat.eqb r row && Nat.eqb c col then v else g r c.

Record ChessBoard := mkChessBoard { board : Grid; captured_pieces : list Piece }.

(** [ChessBoard::new] *)
Definition back_rank (col : nat) : PieceType :=
  match col with
  | 0 | 7 => Rook
  | 1 | 6 => Knight
  | 2 | 5 => Bishop
  | 3 => Queen
  | _ => King
  end.

Definition initial_grid : Grid :=
  fun row col =>
    if 8 <=? col then None else
    match row with
    | 0 => Some (mkPiece (back_rank col) Black)
    | 1 => Some (mkPiece Pawn Black)
    | 6 => Some (mkPiece Pawn White)
    | 7 => Some (mkPiece (back_rank col) White)
    | _ => None
    end.

Definition ChessBoard_new : ChessBoard := mkChessBoard initial_grid [].

(** [ChessBoard::get_piece] *)
Definition get_piece (b : ChessBoard) (pos : Position) : option Piece :=
  if (8 <=? x pos) || (8 <=? y pos) then None else board b (y pos) (x pos).

(** Modelled from the spec: [Piece::get_valid_moves], called by
    [ChessBoard::calculate_moves_for] and [ChessBoard::is_king_in_check], is not
    among the repository's files. Following the spec (one per-square move
    generator for every piece type), it runs [Square::calculate_moves] for the
    piece on a grid holding a [Square] for each of the 64 cells of the board. *)
Definition squares_of (b : ChessBoard) : SquareGrid :=
  map (fun row => map (fun col => Some (mkSquare col row (board b row col)))
                      (seq 0 BOARD_SIZE))
      (seq 0 BOARD_SIZE).

Definition get_valid_moves (pc : Piece) (pos : Position) (b : ChessBoard)
    : list Position :=
  calculate_moves (mkSquare (x pos) (y pos) (Some pc)) pos (squares_of b).

(** [ChessBoard::calculate_moves_for] *)
Definition calculate_moves_for (b : ChessBoard) (pos : Position) : list Position :=
  match get_piece b pos with
  | Some pc => get_valid_moves pc pos b
  | None => []
  end.

(** [ChessBoard::move_piece] *)
Definition move_piece (b : ChessBoard) (from to : Position) : result unit * ChessBoard :=
  if (8 <=? x from) || (8 <=? y from) || (8 <=? x to) || (8 <=? y to)
  then (Err "Invalid position"%string, b)
  else
    match board b (y from) (x from) with
    | None => (Err "No piece at source position"%string, b)
    | Some pc =>
        let caps :=
          match board b (y to) (x to) with
          | Some captured => captured_pieces b ++ [captured]
          | None => captured_pieces b
          end in
        let g1 := set_cell (board b) (y to) (x to) (Some pc) in
        let g2 := set_cell g1 (y from) (x from) None in
        (Ok tt, mkChessBoard g2 caps)
  end.

(** The cells in the order of the [for y in 0..8 { for x in 0..8 ... }] loops. *)
Definition all_positions : list Position :=
  flat_map (fun row => map (fun col => mkPosition col row) (seq 0 8)) (seq 0 8).

(** [ChessBoard::is_king_in_check]; the first loop finds the first king of
    [c] in row-major order (its inner [break] and the outer [is_some] test). *)
Definition is_king_in_check (b : ChessBoard) (c : Color) : bool :=
  let is_own_king (p : Position) :=
    match board b (y p) (x p) with
    | Some pc => PieceType_eqb (piece_type pc) King && Color_eqb (color pc) c
    | None => false
    end in
  match find is_own_king all_positions with
  | None => false
  | Some king_pos =>
      existsb (fun p =>
        match board b (y p) (x p) with
        | Some pc =>
            if negb (Color_eqb (color pc) c)
            then existsb (Position_eqb king_pos) (get_valid_moves pc p b)
            else false
        | None => false
        end) all_positions
  end.

(** ** state.rs *)

Inductive GameMode := LOCAL | AI | MULTIPLAYER.

Inductive Difficulty := EASY | MEDIUM | HARD.

Record GameConfig := mkGameConfig {
  mode : GameMode;
  difficulty : option Difficulty;
  player_color : option Color;
  game_id : option string
}.

Definition GameConfig_default : GameConfig := mkGameConfig LOCAL None None None.

Record GameState := mkGameState {
  gboard : ChessBoard;
  current_player : Color;
  selected_square : option Position;
  possible_moves : list Position;
  game_over : bool;
  winner : option Color;
  is_check : bool;
  config : GameConfig;
  move_history : list string
}.

(** [GameState::new] *)
Definition GameState_new : GameState :=
  mkGameState ChessBoard_new White None [] false None false GameConfig_default [].

(** [GameState::select_square]: the returned moves and the updated state. *)
Definition select_square (s : GameState) (pos : Position) : list Position * GameState :=
  let cleared :=
    mkGameState (gboard s) (current_player s) None [] (game_over s) (winner s)
      (is_check s) (config s) (move_history s) in
  match get_piece (gboard s) pos with
  | Some pc =>
      if Color_eqb (color pc) (current_player s) then
        let pm := calculate_moves_for (gboard s) pos in
        (pm, mkGameState (gboard s) (current_player s) (Some pos) pm (game_over s)
               (winner s) (is_check s) (config s) (move_history s))
      else ([], cleared)
  | None => ([], cleared)
  end.

(** Modelled from the spec: the [Display] implementation of [PieceType] used by
    [to_string] is not among the repository's files. Following the spec, it
    prints the variant's name, so that the notation gives pawns no letter,
    knights "N", and the other pieces their initial. *)
Definition PieceType_to_string (t : PieceType) : string :=
  match t with
  | Pawn => "Pawn"%string | Rook => "Rook"%string | Knight => "Knight"%string
  | Bishop => "Bishop"%string | Queen => "Queen"%string | King => "King"%string
  end.

(** [str::contains] *)
Definition str_contains (hay needle : string) : bool :=
  match String.index 0 needle hay with Some _ => true | None => false end.

(** [files[i]] and [ranks[i]]; the indices are board coordinates, below 8. *)
Definition char_at (s : string) (i : nat) : string :=
  match String.get i s with Some c => String c EmptyString | None => EmptyString end.

(** [GameState::generate_move_notation] *)
Definition generate_move_notation (piece_name : string) (from to : Position)
    (is_capture : bool) : string :=
  let files := "abcdefgh"%string in
  let ranks := "87654321"%string in
  let piece_symbol :=
    if str_contains piece_name "Pawn"%string then ""%string
    else if str_contains piece_name "Knight"%string then "N"%string
    else match piece_name with
         | String c _ => String c EmptyString
         | EmptyString => "P"%string
         end in
  let capture_symbol := if is_capture then "x"%string else "-"%string in
  (piece_symbol ++ char_at files (x from) ++ char_at ranks (y from)
   ++ capture_symbol ++ char_at files (x to) ++ char_at ranks (y to))%string.

(** [Vec::last] *)
Definition last_opt {A} (l : list A) : option A :=
  match rev l with [] => None | a :: _ => Some a end.

(** [GameState::move_piece_from] *)
Definition move_piece_from (s : GameState) (from to : Position) : result unit * GameState :=
  let moves := calculate_moves_for (gboard s) from in
  if negb (existsb (Position_eqb to) moves) then (Err "Invalid move"%string, s) else
  match get_piece (gboard s) from with
  | None => (Err "No piece at source position"%string, s)
  | Some source_piece =>
      let is_capture := match get_piece (gboard s) to with Some _ => true | None => false end in
      let (r, b') := move_piece (gboard s) from to in
      match r with
      | Err e =>
          (Err e, mkGameState b' (current_player s) (selected_square s) (possible_moves s)
                    (game_over s) (winner s) (is_check s) (config s) (move_history s))
      | Ok _ =>
          let notation :=
            generate_move_notation (PieceType_to_string (piece_type source_piece))
              from to is_capture in
          let history := move_history s ++ [notation] in
          let king_taken :=
            if is_capture then
              match last_opt (captured_pieces b') with
              | Some captured =>
                  str_contains (PieceType_to_string (piece_type captured)) "King"
              | None => false
              end
            else false in
          let go := if king_taken then true else game_over s in
          let w := if king_taken then Some (current_player s) else winner s in
          let opponent_color :=
            if Color_eqb (current_player s) White then Black else White in
          let chk := is_king_in_check b' opponent_color in
          let next := match current_player s with White => Black | Black => White end in
          (Ok tt, mkGameState b' next None [] go w chk (config s) history)
      end
  end.

(** [GameState::move_piece] *)
Definition gs_move_piece (s : GameState) (to : Position) : result unit * GameState :=
  match selected_square s with
  | None => (Err "No square selected"%string, s)
  | Some from => move_piece_from s from to
  end.

Example knight_fresh :
  calculate_moves_for ChessBoard_new (mkPosition 1 7) = [mkPosition 2 5; mkPosition 0 5].
Proof. vm_compute. reflexivity. Qed.

Example e2e4 :
  let s' := snd (move_piece_from GameState_new (mkPosition 4 6) (mkPosition 4 4)) in
  current_player s' = Black /\ move_history s' = ["e2-e4"%string] /\ is_check s' = false.
Proof. vm_compute. repeat split. Qed.

(** ** ai.rs *)

(** The [piece_values] map of [evaluate_position]; every key is present. *)
Definition piece_value (t : PieceType) : Z :=
  match t with
  | Pawn => 100 | Knight => 300 | Bishop => 300
  | Rook => 500 | Queen => 900 | King => 10000
  end%Z.

Definition pawn_position_bonus : list (list Z) :=
  [[0; 0; 0; 0; 0; 0; 0; 0];
   [50; 50; 50; 50; 50; 50; 50; 50];
   [10; 10; 20; 30; 30; 20; 10; 10];
   [5; 5; 10; 25; 25; 10; 5; 5];
   [0; 0; 0; 20; 20; 0; 0; 0];
   [5; -5; -10; 0; 0; -10; -5; 5];
   [5; 10; 10; -20; -20; 10; 10; 5];
   [0; 0; 0; 0; 0; 0; 0; 0]]%Z.

Definition knight_position_bonus : list (list Z) :=
  [[-50; -40; -30; -30; -30; -30; -40; -50];
   [-40; -20; 0; 0; 0; 0; -20; -40];
   [-30; 0; 10; 15; 15; 10; 0; -30];
   [-30; 5; 15; 20; 20; 15; 5; -30];
   [-30; 0; 15; 20; 20; 15; 0; -30];
   [-30; 5; 10; 15; 15; 10; 5; -30];
   [-40; -20; 0; 5; 5; 0; -20; -40];
   [-50; -40; -30; -30; -30; -30; -40; -50]]%Z.

Definition bishop_position_bonus : list (list Z) :=
  [[-20; -10; -10; -10; -10; -10; -10; -20];
   [-10; 0; 0; 0; 0; 0; 0; -10];
   [-10; 0; 10; 10; 10; 10; 0; -10];
   [-10; 5; 5; 10; 10; 5; 5; -10];
   [-10; 0; 5; 10; 10; 5; 0; -10];
   [-10; 10; 10; 10; 10; 10; 10; -10];
   [-10; 5; 0; 0; 0; 0; 5; -10];
   [-20; -10; -10; -10; -10; -10; -10; -20]]%Z.

(** [table[row][col]] for indices below 8. *)
Definition table_at (table : list (list Z)) (row col : nat) : Z :=
  nth col (nth row table []) 0%Z.

(** [evaluate_position]: the double loop accumulates into [score]. *)
Definition evaluate_position (s : GameState) (c : Color) : Z :=
  let step (score : Z) (pos : Position) : Z :=
    match get_piece (gboard s) pos with
    | Some pc =>
        let value := piece_value (piece_type pc) in
        let table_bonus table :=
          if Color_eqb (color pc) White then table_at table (y pos) (x pos)
          else table_at table (7 - y pos) (x pos) in
        let position_bonus :=
          match piece_type pc with
          | Pawn => table_bonus pawn_position_bonus
          | Knight => table_bonus knight_position_bonus
          | Bishop => table_bonus bishop_position_bonus
          | _ => 0%Z
          end in
        if Color_eqb (color pc) c then (score + (value + position_bonus))%Z
        else (score - (value + position_bonus))%Z
    | None => score
    end in
  let score := fold_left step all_positions 0%Z in
  if is_check s && Color_eqb (current_player s) c then (score - 50)%Z else score.

(** The [(from, to)] pairs gathered by the loops of [make_random_move] (and
    visited in the same order by [find_best_move] and [minimax]). *)
Definition all_moves (s : GameState) : list (Position * Position) :=
  flat_map (fun pos =>
    match get_piece (gboard s) pos with
    | Some pc =>
        if Color_eqb (color pc) (current_player s)
        then map (fun t => (pos, t)) (calculate_moves_for (gboard s) pos)
        else []
    | None => []
    end) all_positions.

(** [make_random_move]; [choose(&mut thread_rng())] on a nonempty slice picks
    the element at a random index below its length: [r mod length] for the
    random draw [r]. *)
Definition make_random_move (r : nat) (s : GameState) : result unit * GameState :=
  let moves := all_moves s in
  match moves with
  | [] => (Err "No valid moves for AI"%string, s)
  | _ =>
      match nth_error moves (r mod List.length moves) with
      | Some (from, to) => move_piece_from s from to
      | None => (Err "Failed to select random move"%string, s)
      end
  end.

Definition i32_MIN : Z := (-2147483648)%Z.
Definition i32_MAX : Z := 2147483647%Z.

(** [minimax]. The depth is a [nat]: the Rust [i32] depth at every call made
    from [find_best_move] with a depth of at least 1. The [break] of the
    pruning test leaves the loop over the current piece's moves only. *)
Fixpoint minimax (s : GameState) (depth : nat) (maximizing_player : bool)
    (alpha beta : Z) {struct depth} : Z :=
  match depth with
  | O => evaluate_position s (current_player s)
  | S depth' =>
      if game_over s then evaluate_position s (current_player s) else
      let fix piece_loop (pos : Position) (ms : list Position) (acc : Z * Z * Z)
          : Z * Z * Z :=
        match ms with
        | [] => acc
        | target_pos :: rest =>
            let '(best, a, b) := acc in
            match move_piece_from s pos target_pos with
            | (Ok _, temp_state) =>
                let score := minimax temp_state depth' (negb maximizing_player) a b in
                let acc' :=
                  if maximizing_player then
                    let best' := Z.max best score in (best', Z.max a best', b)
                  else
                    let best' := Z.min best score in (best', a, Z.min b best') in
                let '(_, a', b') := acc' in
                if (b' <=? a')%Z then acc' else piece_loop pos rest acc'
            | (Err _, _) => piece_loop pos rest acc
            end
        end in
      let visit (acc : Z * Z * Z) (pos : Position) :=
        match get_piece (gboard s) pos with
        | Some pc =>
            if Color_eqb (color pc) (current_player s)
            then piece_loop pos (calculate_moves_for (gboard s) pos) acc
            else acc
        | None => acc
        end in
      let init := if maximizing_player then i32_MIN else i32_MAX in
      let '(best, _, _) := fold_left visit all_positions (init, alpha, beta) in
      best
  end.

(** [find_best_move] for a depth of at least 1. *)
Definition find_best_move (s : GameState) (depth : nat)
    : result (Position * Position) :=
  let visit (acc : option (Position * Position) * Z) (pos : Position) :=
    match get_piece (gboard s) pos with
    | Some pc =>
        if Color_eqb (color pc) (current_player s) then
          fold_left (fun acc target_pos =>
            match move_piece_from s pos target_pos with
            | (Ok _, temp_state) =>
                let score := minimax temp_state (depth - 1) false i32_MIN i32_MAX in
                if (snd acc <? score)%Z then (Some (pos, target_pos), score) else acc
            | (Err _, _) => acc
            end) (calculate_moves_for (gboard s) pos) acc
        else acc
    | None => acc
    end in
  match fst (fold_left visit all_positions (None, i32_MIN)) with
  | Some m => Ok m
  | None => Err "No valid moves found"%string
  end.

(** [GameState::new_with_config] *)
Definition GameState_new_with_config (cfg : GameConfig) : GameState :=
  let s := GameState_new in
  mkGameState (gboard s) (current_player s) (selected_square s) (possible_moves s)
    (game_over s) (winner s) (is_check s) cfg (move_history s).

(** ** Specification-side definitions *)

(** The states the command layer can reach from a fresh game through the
    selection and move operations of [GameState]. *)
Inductive reachable : GameState -> Prop :=
| reach_new : reachable GameState_new
| reach_new_with_config cfg : reachable (GameState_new_with_config cfg)
| reach_select s pos : reachable s -> reachable (snd (select_square s pos))
| reach_move s to : reachable s -> reachable (snd (gs_move_piece s to))
| reach_move_from s from to : reachable s -> reachable (snd (move_piece_from s from to)).

(** The pawn rules in the spec's words. *)
Definition spec_pawn_direction (c : Color) : Z :=
  match c with White => (-1)%Z | Black => 1%Z end.

Definition spec_pawn_start_row (c : Color) : nat :=
  match c with White => 6 | Black => 1 end.

(** The evaluator in the spec's words: a signed sum over the squares. *)
Definition spec_material_value (t : PieceType) : Z :=
  match t with
  | Pawn => 100 | Knight => 300 | Bishop => 300
  | Rook => 500 | Queen => 900 | King => 10000
  end%Z.

Definition spec_mirror (c : Color) (row : nat) : nat :=
  match c with White => row | Black => 7 - row end.

Definition spec_position_bonus (t : PieceType) (c : Color) (pos : Position) : Z :=
  match t with
  | Pawn => table_at pawn_position_bonus (spec_mirror c (y pos)) (x pos)
  | Knight => table_at knight_position_bonus (spec_mirror c (y pos)) (x pos)
  | Bishop => table_at bishop_position_bonus (spec_mirror c (y pos)) (x pos)
  | _ => 0%Z
  end.

Definition spec_contribution (s : GameState) (perspective : Color) (pos : Position) : Z :=
  match get_piece (gboard s) pos with
  | Some pc =>
      let value := (spec_material_value (piece_type pc)
                    + spec_position_bonus (piece_type pc) (color pc) pos)%Z in
      if Color_eqb (color pc) perspective then value else (- value)%Z
  | None => 0%Z
  end.

Definition spec_evaluate (s : GameState) (perspective : Color) : Z :=
  (fold_right Z.add 0 (map (spec_contribution s perspective) all_positions)
   - (if is_check s && Color_eqb (current_player s) perspective then 50 else 0))%Z.

(** Greedy one-ply choice: the first move, in enumeration order, whose
    resulting state has the largest static evaluation for the mover. *)
Definition greedy_best_move (s : GameState) : option (Position * Position) :=
  option_map fst
    (fold_left (fun best m =>
       let v := evaluate_position (snd (move_piece_from s (fst m) (snd m)))
                  (current_player s) in
       match best with
       | None => Some (m, v)
       | Some (_, bv) => if (bv <? v)%Z then Some (m, v) else best
       end) (all_moves s) None).

(** Pieces standing on the grid. *)
Definition occupied (g : Grid) (p : Position) : bool :=
  match g (y p) (x p) with Some _ => true | None => false end.

Definition pieces_on_grid (b : ChessBoard) : nat :=
  List.length (filter (occupied (board b)) all_positions).

(** ** ai.rs: the Medium AI *)

(** [make_medium_ai_move]: its loop gathers, in the order of [all_moves], every
    move, the moves onto an occupied square, and the moves after which the
    simulated state reports check; one random draw [r] then picks, as in
    [make_random_move], from the first nonempty of these buckets. *)
Definition capture_moves (s : GameState) : list (Position * Position) :=
  filter (fun m => match get_piece (gboard s) (snd m) with
                   | Some _ => true | None => false end) (all_moves s).

Definition check_moves (s : GameState) : list (Position * Position) :=
  filter (fun m => match move_piece_from s (fst m) (snd m) with
                   | (Ok _, temp_state) => is_check temp_state
                   | (Err _, _) => false
                   end) (all_moves s).

Definition choose_from (r : nat) (l : list (Position * Position)) (err : string)
    : result (Position * Position) :=
  match nth_error l (r mod List.length l) with
  | Some m => Ok m
  | None => Err err
  end.

Definition make_medium_ai_move (r : nat) (s : GameState) : result unit * GameState :=
  match all_moves s with
  | [] => (Err "No valid moves for AI"%string, s)
  | _ =>
      let pick :=
        match check_moves s with
        | _ :: _ => choose_from r (check_moves s) "Failed to select check move"%string
        | [] =>
            match capture_moves s with
            | _ :: _ =>
                choose_from r (capture_moves s) "Failed to select capture move"%string
            | [] => choose_from r (all_moves s) "Failed to select random move"%string
            end
        end in
      match pick with
      | Ok (from, to) => move_piece_from s from to
      | Err e => (Err e, s)
      end
  end.

(** [make_hard_ai_move] *)
Definition make_hard_ai_move (s : GameState) : result unit * GameState :=
  match find_best_move s 3 with
  | Ok (from, to) => move_piece_from s from to
  | Err e => (Err e, s)
  end.

(** [make_ai_move]; [r] is the random draw used by the Easy and Medium AIs. *)
Definition make_ai_move (r : nat) (s : GameState) (difficulty : Difficulty)
    : result unit * GameState :=
  match difficulty with
  | EASY => make_random_move r s
  | MEDIUM => make_medium_ai_move r s
  | HARD => make_hard_ai_move s
  end.

(** ** utils.rs *)

(** [initial_piece_setup]; its arms are tried in order. *)
Definition initial_piece_setup (col row : nat) : option Piece :=
  match col, row with
  | _, 1 => Some (mkPiece Pawn White)
  | _, 6 => Some (mkPiece Pawn Black)
  | 0, 0 | 7, 0 => Some (mkPiece Rook White)
  | 0, 7 | 7, 7 => Some (mkPiece Rook Black)
  | 1, 0 | 6, 0 => Some (mkPiece Knight White)
  | 1, 7 | 6, 7 => Some (mkPiece Knight Black)
  | 2, 0 | 5, 0 => Some (mkPiece Bishop White)
  | 2, 7 | 5, 7 => Some (mkPiece Bishop Black)
  | 3, 0 => Some (mkPiece Queen White)
  | 3, 7 => Some (mkPiece Queen Black)
  | 4, 0 => Some (mkPiece King White)
  | 4, 7 => Some (mkPiece King Black)
  | _, _ => None
  end.

(** ** commands.rs: the synchronous part of the commands *)

(** The two globals behind their locks: the game state and the undo stack.
    The AI move that [move_piece] may spawn on another thread after it returns
    is not part of the command's own result and is not modelled. *)
Definition Session := (GameState * list GameState)%type.

(** The push onto [MOVE_HISTORY] in [commands::move_piece], with its cap. *)
Definition push_history (history : list GameState) (st : GameState) : list GameState :=
  let h := history ++ [st] in
  if 50 <? List.length h then tl h else h.

(** [commands::move_piece] *)
Definition cmd_move_piece (ss : Session) (from_x from_y to_x to_y : nat)
    : result GameState * Session :=
  let '(st, history) := ss in
  let history' := push_history history st in
  match move_piece_from st (mkPosition from_x from_y) (mkPosition to_x to_y) with
  | (Ok _, st') => (Ok st', (st', history'))
  | (Err e, st') => (Err e, (st', history'))
  end.

(** [commands::undo_move] *)
Definition cmd_undo_move (ss : Session) : result GameState * Session :=
  let '(st, history) := ss in
  match last_opt history with
  | None => (Err "No moves to undo"%string, ss)
  | Some previous_state => (Ok previous_state, (previous_state, removelast history))
  end.

(** [commands::select_square] *)
Definition cmd_select_square (ss : Session) (px py : nat) : result GameState * Session :=
  let '(st, history) := ss in
  let st' := snd (select_square st (mkPosition px py)) in
  (Ok st', (st', history)).

(** ** Concrete positions *)

(** A grid holding the listed [(col, row, piece)] entries. *)
Fixpoint place (l : list (nat * nat * Piece)) : Grid :=
  match l with
  | [] => fun _ _ => None
  | (col, row, pc) :: rest => set_cell (place rest) row col (Some pc)
  end.

Definition state_of (l : list (nat * nat * Piece)) (c : Color) : GameState :=
  mkGameState (mkChessBoard (place l) []) c None [] false None false
    GameConfig_default [].

(** White rook on a4 facing the Black queen on a8; kings on e1 and e8. *)
Definition rook_vs_queen : GameState :=
  state_of [(4, 7, mkPiece King White); (4, 0, mkPiece King Black);
            (0, 4, mkPiece Rook White); (0, 0, mkPiece Queen Black)] White.

(** White rook on a4 that can take the Black king on a8. *)
Definition rook_takes_king : GameState :=
  state_of [(4, 7, mkPiece King White); (0, 0, mkPiece King Black);
            (0, 4, mkPiece Rook White)] White.

(** Black to move with a lone pawn on a6 as its only piece able to move. *)
Definition lone_black_pawn : GameState :=
  state_of [(4, 7, mkPiece King White); (0, 2, mkPiece Pawn Black)] Black.

(** White to move with a pawn on a7, whose only move takes it to the last row
    where it can no longer move; the Black king on h1 can always reply. *)
Definition pawn_reaching_last_row : GameState :=
  state_of [(0, 1, mkPiece Pawn White); (7, 7, mkPiece King Black)] White.

(** A square [t] reached by a sliding piece of color [c] standing on [pos], along
    the direction [(dx, dy)]: [t] lies [k >= 1] steps away, every square strictly
    between is empty, and [t] is empty or holds a piece of the other color. *)
Definition ray_reach (b : ChessBoard) (pos : Position) (c : Color) (dx dy : Z)
    (t : Position) : Prop :=
  exists k, (1 <= k)%Z
    /\ apply_delta pos (dx * k) (dy * k) = Some t
    /\ (forall j, (1 <= j < k)%Z ->
          exists m, apply_delta pos (dx * j) (dy * j) = Some m /\ get_piece b m = None)
    /\ (get_piece b t = None \/ exists q, get_piece b t = Some q /\ color q <> c).

(** * Proofs *)

(** ** Basic facts *)

Lemma Color_eqb_true (a b : Color) : Color_eqb a b = true <-> a = b.
Proof. destruct a, b; simpl; split; congruence. Qed.

Lemma Position_eqb_refl (p : Position) : Position_eqb p p = true.
Proof. unfold Position_eqb. now rewrite !Nat.eqb_refl. Qed.

Lemma Position_eqb_true (p q : Position) : Position_eqb p q = true <-> p = q.
Proof.
  destruct p as [px py], q as [qx qy]; unfold Position_eqb; simpl.
  rewrite andb_true_iff, !Nat.eqb_eq. split; [intros [-> ->] | intros H; injection H]; auto.
Qed.

Lemma get_piece_bounds (b : ChessBoard) (p : Position) (pc : Piece) :
  get_piece b p = Some pc -> x p < 8 /\ y p < 8 /\ board b (y p) (x p) = Some pc.
Proof.
  unfold get_piece. destruct (8 <=? x p) eqn:Hx, (8 <=? y p) eqn:Hy; simpl;
    try discriminate.
  apply Nat.leb_gt in Hx, Hy. auto.
Qed.

Lemma get_piece_in (b : ChessBoard) (p : Position) :
  x p < 8 -> y p < 8 -> get_piece b p = board b (y p) (x p).
Proof.
  intros Hx Hy. unfold get_piece.
  apply Nat.leb_gt in Hx, Hy. now rewrite Hx, Hy.
Qed.

Lemma last_opt_snoc {A} (l : list A) (a : A) : last_opt (l ++ [a]) = Some a.
Proof. unfold last_opt. now rewrite rev_app_distr. Qed.

(** [ChessBoard::move_piece] fails before touching the board. *)
Lemma move_piece_err_board (b : ChessBoard) (from to : Position) (e : string) :
  fst (move_piece b from to) = Err e -> snd (move_piece b from to) = b.
Proof.
  unfold move_piece.
  destruct ((8 <=? x from) || (8 <=? y from) || (8 <=? x to) || (8 <=? y to)); [reflexivity|].
  destruct (board b (y from) (x from)); simpl; [discriminate | reflexivity].
Qed.

(** A failed [move_piece_from] returns the state it was given. *)
Lemma move_piece_from_err_state (s : GameState) (from to : Position) (e : string) :
  fst (move_piece_from s from to) = Err e -> snd (move_piece_from s from to) = s.
Proof.
  unfold move_piece_from.
  destruct (negb (existsb (Position_eqb to) (calculate_moves_for (gboard s) from)));
    [reflexivity|].
  destruct (get_piece (gboard s) from) as [sp|]; [|reflexivity].
  destruct (move_piece (gboard s) from to) as [r b'] eqn:Hm.
  destruct r as [u|e']; simpl; [discriminate|].
  intros _.
  pose proof (move_piece_err_board (gboard s) from to e') as Hb.
  rewrite Hm in Hb. specialize (Hb eq_refl). simpl in Hb. subst b'.
  destruct s; reflexivity.
Qed.

(** A successful [move_piece_from] clears the selection. *)
Lemma move_piece_from_ok_clears (s s' : GameState) (from to : Position) (u : unit) :
  move_piece_from s from to = (Ok u, s') ->
  selected_square s' = None /\ possible_moves s' = [].
Proof.
  unfold move_piece_from.
  destruct (negb (existsb (Position_eqb to) (calculate_moves_for (gboard s) from)));
    [discriminate|].
  destruct (get_piece (gboard s) from) as [sp|]; [|discriminate].
  destruct (move_piece (gboard s) from to) as [r b'].
  destruct r; [|discriminate].
  intros H; injection H as _ <-. simpl; auto.
Qed.

(** A successful [ChessBoard::move_piece] onto an occupied square ends its
    capture list with the piece that stood there. *)
Lemma move_piece_ok_last_capture (b b' : ChessBoard) (from to : Position) (u : unit)
    (pc : Piece) :
  move_piece b from to = (Ok u, b') -> get_piece b to = Some pc ->
  last_opt (captured_pieces b') = Some pc.
Proof.
  intros Hm Hto. apply get_piece_bounds in Hto as (_ & _ & Hcell).
  revert Hm. unfold move_piece.
  destruct ((8 <=? x from) || (8 <=? y from) || (8 <=? x to) || (8 <=? y to));
    [discriminate|].
  destruct (board b (y from) (x from)); [|discriminate].
  rewrite Hcell. intros H; injection H as _ <-. simpl. apply last_opt_snoc.
Qed.

Lemma filter_cleared_cell (g g' : Grid) (p : Position) (l : list Position) :
  g (y p) (x p) <> None -> g' (y p) (x p) = None ->
  (forall q, Position_eqb q p = false -> g' (y q) (x q) = g (y q) (x q)) ->
  List.length (filter (occupied g) l)
  = List.length (filter (occupied g') l)
    + List.length (filter (fun q => Position_eqb q p) l).
Proof.
  intros Hg Hg' Hframe. induction l as [|q l IH]; simpl; [reflexivity|].
  destruct (Position_eqb q p) eqn:E.
  - apply Position_eqb_true in E; subst q.
    assert (H1 : occupied g p = true)
      by (unfold occupied; destruct (g (y p) (x p)); congruence).
    assert (H2 : occupied g' p = false) by (unfold occupied; now rewrite Hg').
    rewrite H1, H2. simpl. lia.
  - assert (H1 : occupied g' q = occupied g q) by (unfold occupied; now rewrite Hframe).
    rewrite H1. destruct (occupied g q); simpl; lia.
Qed.

Lemma all_positions_once (p : Position) :
  x p < 8 -> y p < 8 ->
  List.length (filter (fun q => Position_eqb q p) all_positions) = 1.
Proof.
  destruct p as [px py]; intros Hx Hy; simpl in Hx, Hy.
  destruct px as [|[|[|[|[|[|[|[|px]]]]]]]]; try (exfalso; lia).
  all: destruct py as [|[|[|[|[|[|[|[|py]]]]]]]]; try (exfalso; lia).
  all: vm_compute; reflexivity.
Qed.

(** ** Board.move_piece and GameState.move_piece_from *)

(** C1: a successful move onto the square of a King ends the game and makes
    the player who moved the winner. *)
Theorem king_capture_ends_game (s s' : GameState) (from to : Position)
    (captured : Piece) :
  get_piece (gboard s) to = Some captured -> piece_type captured = King ->
  move_piece_from s from to = (Ok tt, s') ->
  game_over s' = true /\ winner s' = Some (current_player s).
Proof.
  intros Hto Hking. unfold move_piece_from. rewrite Hto.
  destruct (negb (existsb (Position_eqb to) (calculate_moves_for (gboard s) from)));
    [discriminate|].
  destruct (get_piece (gboard s) from) as [sp|]; [|discriminate].
  destruct (move_piece (gboard s) from to) as [r b'] eqn:Hm.
  destruct r as [u|e]; [|discriminate].
  rewrite (move_piece_ok_last_capture _ _ _ _ _ _ Hm Hto), Hking.
  intros H; injection H as <-. simpl. auto.
Qed.

Lemma king_capture_ends_game_witness :
  game_over (snd (move_piece_from rook_takes_king (mkPosition 0 4) (mkPosition 0 0))) = true
  /\ winner (snd (move_piece_from rook_takes_king (mkPosition 0 4) (mkPosition 0 0)))
     = Some White.
Proof.
  apply (king_capture_ends_game rook_takes_king _ (mkPosition 0 4) (mkPosition 0 0)
           (mkPiece King Black)); [reflexivity | reflexivity | vm_compute; reflexivity].
Defined.

(** C2: a [move_piece_from] call that fails leaves the whole game state (board,
    captures, player, selection, flags and history) as it was. *)
Theorem move_piece_from_error_no_change (s s' : GameState) (from to : Position)
    (e : string) :
  move_piece_from s from to = (Err e, s') -> s' = s.
Proof.
  intros H. pose proof (move_piece_from_err_state s from to e) as Hs.
  rewrite H in Hs. simpl in Hs. now apply Hs.
Qed.

Lemma move_piece_from_error_no_change_witness :
  GameState_new = GameState_new.
Proof.
  apply (move_piece_from_error_no_change GameState_new GameState_new
           (mkPosition 3 4) (mkPosition 3 3) "Invalid move"%string).
  vm_compute. reflexivity.
Defined.

(** C10 (as stated): moving a piece onto its own square does not change the
    number of pieces on the grid plus captured pieces, so the claim that it
    breaks that count fails, already for the Black rook of a fresh board. *)
Lemma move_piece_same_square_total_kept :
  ~ (forall (b : ChessBoard) (p : Position) (pc : Piece),
       get_piece b p = Some pc ->
       fst (move_piece b p p) = Ok tt
       /\ captured_pieces (snd (move_piece b p p)) = captured_pieces b ++ [pc]
       /\ get_piece (snd (move_piece b p p)) p = None
       /\ pieces_on_grid (snd (move_piece b p p))
          + List.length (captured_pieces (snd (move_piece b p p)))
          <> pieces_on_grid b + List.length (captured_pieces b)).
Proof.
  intros H.
  destruct (H ChessBoard_new (mkPosition 0 0) (mkPiece Rook Black) eq_refl)
    as (_ & _ & _ & Hn).
  apply Hn. vm_compute. reflexivity.
Qed.

(** C10 (amended): [ChessBoard::move_piece(p, p)] on a square holding a piece
    succeeds, appends that piece to the captures and leaves the square empty;
    the grid loses exactly that piece, so the pieces on the grid plus the
    captured pieces are as many as before. *)
Theorem move_piece_same_square (b : ChessBoard) (p : Position) (pc : Piece) :
  get_piece b p = Some pc ->
  fst (move_piece b p p) = Ok tt
  /\ captured_pieces (snd (move_piece b p p)) = captured_pieces b ++ [pc]
  /\ get_piece (snd (move_piece b p p)) p = None
  /\ pieces_on_grid (snd (move_piece b p p)) + 1 = pieces_on_grid b
  /\ pieces_on_grid (snd (move_piece b p p))
     + List.length (captured_pieces (snd (move_piece b p p)))
     = pieces_on_grid b + List.length (captured_pieces b).
Proof.
  intros Hp. destruct (get_piece_bounds _ _ _ Hp) as (Hx & Hy & Hcell).
  assert (Hxb : (8 <=? x p) = false) by (apply Nat.leb_gt; lia).
  assert (Hyb : (8 <=? y p) = false) by (apply Nat.leb_gt; lia).
  set (g' := set_cell (set_cell (board b) (y p) (x p) (Some pc)) (y p) (x p) None).
  assert (Hmv : move_piece b p p = (Ok tt, mkChessBoard g' (captured_pieces b ++ [pc]))).
  { unfold move_piece. rewrite Hxb, Hyb, Hcell. reflexivity. }
  rewrite Hmv. cbn [fst snd captured_pieces].
  assert (Hg' : g' (y p) (x p) = None).
  { unfold g', set_cell. now rewrite !Nat.eqb_refl. }
  assert (Hcount : pieces_on_grid (mkChessBoard g' (captured_pieces b ++ [pc])) + 1
                   = pieces_on_grid b).
  { unfold pieces_on_grid. cbn [board].
    rewrite (filter_cleared_cell (board b) g' p all_positions).
    - rewrite all_positions_once by assumption. reflexivity.
    - congruence.
    - exact Hg'.
    - intros q Hq. unfold g', set_cell.
      destruct (Nat.eqb (y q) (y p) && Nat.eqb (x q) (x p)) eqn:E; [|reflexivity].
      exfalso. apply andb_true_iff in E as [E1 E2].
      apply Nat.eqb_eq in E1, E2.
      assert (q = p) by (destruct q, p; simpl in *; congruence).
      subst q. now rewrite Position_eqb_refl in Hq. }
  split; [reflexivity|]. split; [reflexivity|]. split.
  - rewrite get_piece_in by assumption. exact Hg'.
  - split; [exact Hcount|]. rewrite length_app. cbn [List.length]. lia.
Qed.

(** C6 (as stated): from an empty source square [move_piece_from] does not
    fail with the no-piece error of [ChessBoard::move_piece]; the move check
    runs first and answers with the invalid-move error. *)
Lemma move_piece_from_empty_source_error :
  get_piece (gboard GameState_new) (mkPosition 3 4) = None
  /\ fst (move_piece_from GameState_new (mkPosition 3 4) (mkPosition 3 3))
     = Err "Invalid move"%string
  /\ fst (move_piece_from GameState_new (mkPosition 3 4) (mkPosition 3 3))
     <> Err "No piece at source position"%string.
Proof.
  split; [reflexivity|]. split; [vm_compute; reflexivity|].
  vm_compute. intros H. discriminate H.
Qed.

(** C6 (amended): when the source square holds no piece, [move_piece_from]
    fails with the invalid-move error, the one it gives for any target outside
    the source's move set, and returns the state unchanged. *)
Theorem move_piece_from_empty_source (s : GameState) (from to : Position) :
  get_piece (gboard s) from = None ->
  move_piece_from s from to = (Err "Invalid move"%string, s).
Proof.
  intros H. unfold move_piece_from, calculate_moves_for. rewrite H. reflexivity.
Qed.

Lemma move_piece_from_empty_source_witness :
  move_piece_from GameState_new (mkPosition 3 4) (mkPosition 3 3)
  = (Err "Invalid move"%string, GameState_new).
Proof.
  apply move_piece_from_empty_source. reflexivity.
Defined.

(** ** GameState.select_square *)

(** C8: [select_square] touches only the selection. On a piece of the player
    to move it selects it and returns its move set; on anything else (an empty
    or off-board square, an opponent's piece) it clears the selection and
    returns nothing, whatever was selected before. *)
Theorem select_square_frame (s : GameState) (pos : Position) :
  let r := select_square s pos in
  gboard (snd r) = gboard s
  /\ current_player (snd r) = current_player s
  /\ game_over (snd r) = game_over s
  /\ winner (snd r) = winner s
  /\ is_check (snd r) = is_check s
  /\ config (snd r) = config s
  /\ move_history (snd r) = move_history s
  /\ ((exists pc, get_piece (gboard s) pos = Some pc /\ color pc = current_player s) ->
      selected_square (snd r) = Some pos
      /\ possible_moves (snd r) = calculate_moves_for (gboard s) pos
      /\ fst r = possible_moves (snd r))
  /\ ((~ exists pc, get_piece (gboard s) pos = Some pc /\ color pc = current_player s) ->
      selected_square (snd r) = None /\ possible_moves (snd r) = [] /\ fst r = []).
Proof.
  unfold select_square.
  destruct (get_piece (gboard s) pos) as [pc|] eqn:Hg.
  - destruct (Color_eqb (color pc) (current_player s)) eqn:Hc; simpl.
    + apply Color_eqb_true in Hc.
      do 7 (split; [reflexivity|]). split.
      * intros _. auto.
      * intros Hn. exfalso. apply Hn. eauto.
    + do 7 (split; [reflexivity|]). split.
      * intros (pc' & Hpc' & Hcol). exfalso.
        injection Hpc' as <-. apply Color_eqb_true in Hcol. congruence.
      * intros _. auto.
  - simpl. do 7 (split; [reflexivity|]). split.
    + intros (pc' & Hpc' & _). discriminate.
    + intros _. auto.
Qed.

(** ** Reachable states *)

(** C9 (as stated): a reachable state can select a square with no move: the
    White rook of a fresh game. *)
Lemma selected_with_no_moves :
  ~ (forall (s : GameState) (pos : Position),
       reachable s -> selected_square s = Some pos -> possible_moves s <> []).
Proof.
  intros H.
  apply (H (snd (select_square GameState_new (mkPosition 0 7))) (mkPosition 0 7)).
  - apply reach_select, reach_new.
  - vm_compute. reflexivity.
  - vm_compute. reflexivity.
Qed.

(** C9 (amended): in every reachable state a selected square holds a piece of
    the player to move, and [possible_moves] is exactly the board's move set
    for that square (which may be empty). *)
Theorem selection_invariant (s : GameState) (pos : Position) :
  reachable s -> selected_square s = Some pos ->
  possible_moves s = calculate_moves_for (gboard s) pos
  /\ exists pc, get_piece (gboard s) pos = Some pc /\ color pc = current_player s.
Proof.
  intros Hr. revert pos. induction Hr as [| cfg | s p Hr IH | s to Hr IH | s from to Hr IH];
    intros pos Hsel.
  - discriminate.
  - discriminate.
  - revert Hsel. unfold select_square.
    destruct (get_piece (gboard s) p) as [pc|] eqn:Hg; simpl; [|discriminate].
    destruct (Color_eqb (color pc) (current_player s)) eqn:Hc; simpl; [|discriminate].
    intros H; injection H as <-. apply Color_eqb_true in Hc.
    split; [reflexivity|]. exists pc. auto.
  - revert Hsel. unfold gs_move_piece.
    destruct (selected_square s) as [from|] eqn:Hs; [|simpl; rewrite Hs; discriminate].
    destruct (move_piece_from s from to) as [r s'] eqn:Hm. simpl.
    destruct r as [u|e].
    + destruct (move_piece_from_ok_clears _ _ _ _ _ Hm) as [-> _]. discriminate.
    + pose proof (move_piece_from_err_state s from to e) as He.
      rewrite Hm in He. simpl in He. rewrite (He eq_refl).
      intros H. apply IH. congruence.
  - revert Hsel.
    destruct (move_piece_from s from to) as [r s'] eqn:Hm. simpl.
    destruct r as [u|e].
    + destruct (move_piece_from_ok_clears _ _ _ _ _ Hm) as [-> _]. discriminate.
    + pose proof (move_piece_from_err_state s from to e) as He.
      rewrite Hm in He. simpl in He. rewrite (He eq_refl).
      intros H. apply IH. congruence.
Qed.

Lemma selection_invariant_witness :
  possible_moves (snd (select_square GameState_new (mkPosition 4 6)))
  = calculate_moves_for (gboard (snd (select_square GameState_new (mkPosition 4 6))))
      (mkPosition 4 6)
  /\ exists pc,
       get_piece (gboard (snd (select_square GameState_new (mkPosition 4 6))))
         (mkPosition 4 6) = Some pc
       /\ color pc = current_player (snd (select_square GameState_new (mkPosition 4 6))).
Proof.
  apply selection_invariant.
  - apply reach_select, reach_new.
  - vm_compute. reflexivity.
Defined.

Lemma move_piece_same_square_witness :
  fst (move_piece ChessBoard_new (mkPosition 0 0) (mkPosition 0 0)) = Ok tt
  /\ captured_pieces (snd (move_piece ChessBoard_new (mkPosition 0 0) (mkPosition 0 0)))
     = captured_pieces ChessBoard_new ++ [mkPiece Rook Black]
  /\ get_piece (snd (move_piece ChessBoard_new (mkPosition 0 0) (mkPosition 0 0)))
       (mkPosition 0 0) = None
  /\ pieces_on_grid (snd (move_piece ChessBoard_new (mkPosition 0 0) (mkPosition 0 0))) + 1
     = pieces_on_grid ChessBoard_new
  /\ pieces_on_grid (snd (move_piece ChessBoard_new (mkPosition 0 0) (mkPosition 0 0)))
     + List.length (captured_pieces
                      (snd (move_piece ChessBoard_new (mkPosition 0 0) (mkPosition 0 0))))
     = pieces_on_grid ChessBoard_new + List.length (captured_pieces ChessBoard_new).
Proof.
  apply move_piece_same_square. reflexivity.
Defined.

(** ** Move generation on the board's square grid *)

Lemma apply_delta_bounds (p : Position) (dx dy : Z) (t : Position) :
  apply_delta p dx dy = Some t -> x t < 8 /\ y t < 8.
Proof.
  unfold apply_delta, BOARD_SIZE.
  destruct ((0 <=? Z.of_nat (x p) + dx)%Z && (Z.of_nat (x p) + dx <? Z.of_nat 8)%Z
            && (0 <=? Z.of_nat (y p) + dy)%Z && (Z.of_nat (y p) + dy <? Z.of_nat 8)%Z)
    eqn:E; [|discriminate].
  intros H; injection H as <-.
  rewrite !andb_true_iff in E. destruct E as [[[E1 E2] E3] E4].
  apply Z.leb_le in E1, E3. apply Z.ltb_lt in E2, E4. simpl. lia.
Qed.

Lemma grid_square_squares_of (b : ChessBoard) (t : Position) :
  x t < 8 -> y t < 8 ->
  grid_square t (squares_of b) = Some (mkSquare (x t) (y t) (board b (y t) (x t))).
Proof.
  intros Hx Hy. unfold grid_square, squares_of.
  rewrite nth_error_map, nth_error_seq.
  replace (Nat.ltb (y t) BOARD_SIZE) with true
    by (symmetry; apply Nat.ltb_lt; unfold BOARD_SIZE; lia).
  cbn [option_map Nat.add]. rewrite nth_error_map, nth_error_seq.
  replace (Nat.ltb (x t) BOARD_SIZE) with true
    by (symmetry; apply Nat.ltb_lt; unfold BOARD_SIZE; lia).
  reflexivity.
Qed.

Lemma is_empty_square_board (b : ChessBoard) (t : Position) :
  x t < 8 -> y t < 8 ->
  is_empty_square t (squares_of b)
  = match get_piece b t with None => true | Some _ => false end.
Proof.
  intros Hx Hy. unfold is_empty_square.
  rewrite grid_square_squares_of, get_piece_in by assumption. reflexivity.
Qed.

Lemma can_capture_at_board (b : ChessBoard) (t : Position) (c : Color) :
  x t < 8 -> y t < 8 ->
  can_capture_at t (squares_of b) c
  = match get_piece b t with Some q => negb (Color_eqb (color q) c) | None => false end.
Proof.
  intros Hx Hy. unfold can_capture_at.
  rewrite grid_square_squares_of, get_piece_in by assumption. reflexivity.
Qed.

(** The forward part of the pawn moves. *)
Lemma pawn_forward_in (b : ChessBoard) (pos : Position) (d : Z) (sr : nat) (t : Position) :
  In t (match apply_delta pos 0 d with
        | Some new_pos =>
            if is_empty_square new_pos (squares_of b) then
              new_pos ::
                (if Nat.eqb (y pos) sr then
                   match apply_delta pos 0 (2 * d) with
                   | Some double_pos =>
                       if is_empty_square double_pos (squares_of b)
                       then [double_pos] else []
                   | None => []
                   end
                 else [])
            else []
        | None => []
        end)
  <-> (apply_delta pos 0 d = Some t /\ get_piece b t = None)
      \/ (y pos = sr
          /\ (exists m, apply_delta pos 0 d = Some m /\ get_piece b m = None)
          /\ apply_delta pos 0 (2 * d) = Some t /\ get_piece b t = None).
Proof.
  destruct (apply_delta pos 0 d) as [np|] eqn:E1.
  - destruct (apply_delta_bounds _ _ _ _ E1) as [Hx1 Hy1].
    rewrite is_empty_square_board by assumption.
    destruct (get_piece b np) as [q|] eqn:G1.
    + split; [intros []|].
      intros [[H1 H2] | (_ & (m & Hm & Gm) & _)].
      * injection H1 as <-. congruence.
      * injection Hm as <-. congruence.
    + destruct (Nat.eqb (y pos) sr) eqn:Ey.
      * apply Nat.eqb_eq in Ey.
        destruct (apply_delta pos 0 (2 * d)) as [dp|] eqn:E2.
        -- destruct (apply_delta_bounds _ _ _ _ E2) as [Hx2 Hy2].
           rewrite is_empty_square_board by assumption.
           destruct (get_piece b dp) as [q|] eqn:G2.
           ++ split.
              ** intros [<- | []]. left; auto.
              ** intros [[H1 _] | (_ & _ & H3 & H4)].
                 --- injection H1 as <-. left; reflexivity.
                 --- injection H3 as <-. congruence.
           ++ split.
              ** intros [<- | [<- | []]].
                 --- left; auto.
                 --- right. split; [exact Ey|]. split; [exists np; auto | auto].
              ** intros [[H1 _] | (_ & _ & H3 & _)].
                 --- injection H1 as <-. left; reflexivity.
                 --- injection H3 as <-. right; left; reflexivity.
        -- split.
           ++ intros [<- | []]. left; auto.
           ++ intros [[H1 _] | (_ & _ & H3 & _)]; [|discriminate].
              injection H1 as <-. left; reflexivity.
      * split.
        -- intros [<- | []]. left; auto.
        -- intros [[H1 _] | (Hy & _)].
           ++ injection H1 as <-. left; reflexivity.
           ++ apply Nat.eqb_neq in Ey. contradiction.
  - split; [intros []|].
    intros [[H _] | (_ & (m & Hm & _) & _)]; discriminate.
Qed.

(** One diagonal of the pawn moves. *)
Lemma pawn_diagonal_in (b : ChessBoard) (pos : Position) (dx d : Z) (c : Color)
    (t : Position) :
  In t (match apply_delta pos dx d with
        | Some capture_pos =>
            if can_capture_at capture_pos (squares_of b) c then [capture_pos] else []
        | None => []
        end)
  <-> apply_delta pos dx d = Some t
      /\ exists q, get_piece b t = Some q /\ color q <> c.
Proof.
  destruct (apply_delta pos dx d) as [cp|] eqn:E.
  - destruct (apply_delta_bounds _ _ _ _ E) as [Hx Hy].
    rewrite can_capture_at_board by assumption.
    destruct (get_piece b cp) as [q|] eqn:G.
    + destruct (Color_eqb (color q) c) eqn:Hc; simpl.
      * split; [intros []|].
        intros [H (q' & Hq' & Hcol)]. injection H as <-.
        rewrite G in Hq'. injection Hq' as <-.
        apply Color_eqb_true in Hc. contradiction.
      * split.
        -- intros [<- | []]. split; [reflexivity|].
           exists q. split; [exact G|]. intros Heq.
           apply Color_eqb_true in Heq. congruence.
        -- intros [H _]. injection H as <-. left; reflexivity.
    + simpl. split; [intros []|].
      intros [H (q' & Hq' & _)]. injection H as <-. congruence.
  - split; [intros []|]. intros [H _]; discriminate.
Qed.

(** C3: the move set of a pawn is its single step onto an empty square, its
    double step from its starting rank over two empty squares, and its
    diagonal steps onto opposite-colored pieces; nothing else. *)
Theorem pawn_move_set (b : ChessBoard) (pos : Position) (c : Color) (t : Position) :
  get_piece b pos = Some (mkPiece Pawn c) ->
  In t (calculate_moves_for b pos)
  <-> (apply_delta pos 0 (spec_pawn_direction c) = Some t /\ get_piece b t = None)
      \/ (y pos = spec_pawn_start_row c
          /\ (exists m, apply_delta pos 0 (spec_pawn_direction c) = Some m
                        /\ get_piece b m = None)
          /\ apply_delta pos 0 (2 * spec_pawn_direction c) = Some t
          /\ get_piece b t = None)
      \/ (exists dx, (dx = -1 \/ dx = 1)%Z
                     /\ apply_delta pos dx (spec_pawn_direction c) = Some t
                     /\ exists q, get_piece b t = Some q /\ color q <> c).
Proof.
  intros Hp. unfold calculate_moves_for. rewrite Hp.
  unfold get_valid_moves, calculate_moves. cbn [piece piece_type].
  unfold pawn_moves. cbn [color]. cbv zeta.
  replace (if Color_eqb c White then (-1)%Z else 1%Z) with (spec_pawn_direction c)
    by (destruct c; reflexivity).
  replace (if Color_eqb c White then 6 else 1) with (spec_pawn_start_row c)
    by (destruct c; reflexivity).
  rewrite in_app_iff, pawn_forward_in. cbn [flat_map].
  rewrite in_app_iff, in_app_iff, pawn_diagonal_in, pawn_diagonal_in.
  split.
  - intros [[H | H] | [H | [H | []]]]; auto.
    + right; right. exists (-1)%Z. auto.
    + right; right. exists 1%Z. auto.
  - intros [H | [H | (dx & [-> | ->] & H)]]; auto.
Qed.

Lemma pawn_move_set_witness :
  In (mkPosition 4 4) (calculate_moves_for ChessBoard_new (mkPosition 4 6))
  <-> (apply_delta (mkPosition 4 6) 0 (spec_pawn_direction White) = Some (mkPosition 4 4)
       /\ get_piece ChessBoard_new (mkPosition 4 4) = None)
      \/ (y (mkPosition 4 6) = spec_pawn_start_row White
          /\ (exists m, apply_delta (mkPosition 4 6) 0 (spec_pawn_direction White) = Some m
                        /\ get_piece ChessBoard_new m = None)
          /\ apply_delta (mkPosition 4 6) 0 (2 * spec_pawn_direction White)
             = Some (mkPosition 4 4)
          /\ get_piece ChessBoard_new (mkPosition 4 4) = None)
      \/ (exists dx, (dx = -1 \/ dx = 1)%Z
                     /\ apply_delta (mkPosition 4 6) dx (spec_pawn_direction White)
                        = Some (mkPosition 4 4)
                     /\ exists q, get_piece ChessBoard_new (mkPosition 4 4) = Some q
                                  /\ color q <> White).
Proof.
  apply pawn_move_set. reflexivity.
Defined.

(** ** Evaluator *)

Lemma fold_left_as_sum (f : Z -> Position -> Z) (g : Position -> Z) :
  (forall a p, f a p = (a + g p)%Z) ->
  forall l a, fold_left f l a = (a + fold_right Z.add 0 (map g l))%Z.
Proof.
  intros Hf l. induction l as [|p l IH]; intros a; simpl.
  - lia.
  - rewrite IH, Hf. lia.
Qed.

(** C4: [evaluate_position] is the signed sum over occupied squares of
    material plus positional bonus (pawn, knight and bishop tables read with
    the row mirrored for Black, no bonus for the others), minus 50 when the
    side to move is in check and is the perspective color. *)
Theorem evaluate_position_spec (s : GameState) (c : Color) :
  evaluate_position s c = spec_evaluate s c.
Proof.
  unfold evaluate_position, spec_evaluate.
  rewrite (fold_left_as_sum _ (spec_contribution s c)).
  - destruct (is_check s && Color_eqb (current_player s) c); lia.
  - intros a pos. unfold spec_contribution.
    destruct (get_piece (gboard s) pos) as [[t col]|]; [|lia].
    destruct t, col, c; cbn [piece_type color Color_eqb piece_value spec_material_value
                              spec_position_bonus spec_mirror]; lia.
Qed.

(** ** Search *)

(** A successful move hands the turn to the other player. *)
Lemma move_piece_from_ok_flips (s s' : GameState) (from to : Position) (u : unit) :
  move_piece_from s from to = (Ok u, s') ->
  current_player s' = opposite (current_player s).
Proof.
  unfold move_piece_from.
  destruct (negb (existsb (Position_eqb to) (calculate_moves_for (gboard s) from)));
    [discriminate|].
  destruct (get_piece (gboard s) from) as [sp|]; [|discriminate].
  destruct (move_piece (gboard s) from to) as [r b'].
  destruct r; [|discriminate].
  intros H; injection H as _ <-. simpl. now destruct (current_player s).
Qed.

(** At depth 1 [find_best_move] scores a move by the static evaluation of the
    resulting state from the side to move there, i.e. from the opponent. *)
Lemma depth1_leaf_score (s s' : GameState) (from to : Position) (u : unit) :
  move_piece_from s from to = (Ok u, s') ->
  minimax s' (1 - 1) false i32_MIN i32_MAX
  = evaluate_position s' (opposite (current_player s)).
Proof.
  intros H. simpl. now rewrite (move_piece_from_ok_flips _ _ _ _ _ H).
Qed.

(** C5: at depth 1 [find_best_move] does not agree with the greedy one-ply
    choice. With a White rook on a4 able to take the Black queen on a8, the
    greedy choice takes the queen, while [find_best_move] plays Ra4-a3, the
    first move maximizing the evaluation from Black's side. *)
Theorem find_best_move_depth1_not_greedy :
  find_best_move rook_vs_queen 1 = Ok (mkPosition 0 4, mkPosition 0 5)
  /\ greedy_best_move rook_vs_queen = Some (mkPosition 0 4, mkPosition 0 0).
Proof. split; vm_compute; reflexivity. Qed.

(** ** Easy AI *)

Lemma add_moves_bounds (ms : list (Z * Z)) (pos : Position) (g : SquareGrid) (c : Color)
    (oe : bool) (t : Position) :
  In t (add_moves ms pos g c oe) -> x t < 8 /\ y t < 8.
Proof.
  induction ms as [|[dx dy] ms IH]; simpl; [intros []|].
  rewrite in_app_iff. intros [H | H]; [|exact (IH H)].
  destruct (apply_delta pos dx dy) as [np|] eqn:E; [|destruct H].
  apply apply_delta_bounds in E.
  destruct oe;
    [destruct (is_empty_square np g) | destruct (is_empty_square np g || can_capture_at np g c)];
    simpl in H; try destruct H as [<- | []]; try destruct H; exact E.
Qed.

Lemma line_ray_bounds (fuel : nat) (step dx dy : Z) (pos : Position) (g : SquareGrid)
    (c : Color) (t : Position) :
  In t (line_ray fuel step dx dy pos g c) -> x t < 8 /\ y t < 8.
Proof.
  revert step. induction fuel as [|fuel IH]; intros step H; [destruct H|].
  cbn [line_ray] in H. cbv zeta in H.
  match type of H with
  | In _ (if ?cond then _ else _) => destruct cond eqn:E; [destruct H|]
  end.
  rewrite !orb_false_iff in E. destruct E as [[[E1 E2] E3] E4].
  apply Z.ltb_ge in E1, E3. apply Z.leb_gt in E2, E4. unfold BOARD_SIZE in E2, E4.
  assert (Hb : x (mkPosition (Z.to_nat (Z.of_nat (x pos) + dx * step))
                             (Z.to_nat (Z.of_nat (y pos) + dy * step))) < 8
               /\ y (mkPosition (Z.to_nat (Z.of_nat (x pos) + dx * step))
                                (Z.to_nat (Z.of_nat (y pos) + dy * step))) < 8)
    by (cbn [x y]; lia).
  destruct (nth_error g (Z.to_nat (Z.of_nat (y pos) + dy * step))) as [row|];
    [|destruct H].
  destruct (nth_error row (Z.to_nat (Z.of_nat (x pos) + dx * step))) as [[sq|]|];
    [|destruct H|destruct H].
  destruct (piece sq) as [pc|].
  - destruct (Color_eqb (color pc) c); [destruct H|]. destruct H as [<- | []]. exact Hb.
  - destruct H as [<- | H]; [exact Hb | exact (IH _ H)].
Qed.

Lemma add_line_moves_bounds (ds : list (Z * Z)) (pos : Position) (g : SquareGrid)
    (c : Color) (t : Position) :
  In t (add_line_moves ds pos g c) -> x t < 8 /\ y t < 8.
Proof.
  induction ds as [|[dx dy] ds IH]; cbn [add_line_moves]; [intros []|].
  rewrite in_app_iff. intros [H | H]; [exact (line_ray_bounds _ _ _ _ _ _ _ _ H) | exact (IH H)].
Qed.

Lemma pawn_moves_bounds (pc : Piece) (pos : Position) (g : SquareGrid) (t : Position) :
  In t (pawn_moves pc pos g) -> x t < 8 /\ y t < 8.
Proof.
  unfold pawn_moves. cbv zeta. rewrite in_app_iff. intros [H | H].
  - destruct (apply_delta pos 0 _) as [np|] eqn:E1; [|destruct H].
    destruct (is_empty_square np g); [|destruct H].
    destruct H as [<- | H]; [exact (apply_delta_bounds _ _ _ _ E1)|].
    destruct (Nat.eqb (y pos) _); [|destruct H].
    destruct (apply_delta pos 0 (2 * _)) as [dp|] eqn:E2; [|destruct H].
    destruct (is_empty_square dp g); [|destruct H].
    destruct H as [<- | []]. exact (apply_delta_bounds _ _ _ _ E2).
  - apply in_flat_map in H as (dx & _ & H).
    destruct (apply_delta pos dx _) as [cp|] eqn:E; [|destruct H].
    destruct (can_capture_at cp g (color pc)); [|destruct H].
    destruct H as [<- | []]. exact (apply_delta_bounds _ _ _ _ E).
Qed.

(** Every generated target lies on the board. *)
Lemma calculate_moves_for_bounds (b : ChessBoard) (pos t : Position) :
  In t (calculate_moves_for b pos) -> x t < 8 /\ y t < 8.
Proof.
  unfold calculate_moves_for.
  destruct (get_piece b pos) as [pc|]; [|intros []].
  unfold get_valid_moves, calculate_moves. cbn [piece].
  destruct (piece_type pc).
  - apply pawn_moves_bounds.
  - apply add_line_moves_bounds.
  - apply add_moves_bounds.
  - apply add_line_moves_bounds.
  - apply add_line_moves_bounds.
  - apply add_moves_bounds.
Qed.

(** Every pair gathered by the AI loops is a generated move of an own piece. *)
Lemma all_moves_in (s : GameState) (from to : Position) :
  In (from, to) (all_moves s) ->
  (exists pc, get_piece (gboard s) from = Some pc)
  /\ In to (calculate_moves_for (gboard s) from).
Proof.
  unfold all_moves. intros H. apply in_flat_map in H as (pos & _ & H).
  destruct (get_piece (gboard s) pos) as [pc|] eqn:G; [|destruct H].
  destruct (Color_eqb (color pc) (current_player s)); [|destruct H].
  apply in_map_iff in H as (t & Heq & Ht). injection Heq as <- <-.
  split; [eauto | exact Ht].
Qed.

(** A generated move is accepted by [move_piece_from]. *)
Lemma move_piece_from_generated_ok (s : GameState) (from to : Position) (pc : Piece) :
  get_piece (gboard s) from = Some pc ->
  In to (calculate_moves_for (gboard s) from) ->
  fst (move_piece_from s from to) = Ok tt.
Proof.
  intros Hf Ht.
  destruct (get_piece_bounds _ _ _ Hf) as (Hx & Hy & Hcell).
  destruct (calculate_moves_for_bounds _ _ _ Ht) as [Htx Hty].
  assert (Hin : existsb (Position_eqb to) (calculate_moves_for (gboard s) from) = true).
  { apply existsb_exists. exists to. split; [exact Ht | apply Position_eqb_refl]. }
  unfold move_piece_from. rewrite Hin, Hf. cbn [negb].
  assert (Hmv : fst (move_piece (gboard s) from to) = Ok tt).
  { unfold move_piece.
    replace ((8 <=? x from) || (8 <=? y from) || (8 <=? x to) || (8 <=? y to)) with false
      by (symmetry; rewrite !orb_false_iff; repeat split; apply Nat.leb_gt; lia).
    rewrite Hcell. reflexivity. }
  destruct (move_piece (gboard s) from to) as [r b']. cbn [fst] in Hmv. subst r.
  reflexivity.
Qed.

(** The random draw picks one of the gathered pairs. *)
Lemma make_random_move_pick (r : nat) (s : GameState) m ms :
  all_moves s = m :: ms ->
  exists from to, In (from, to) (all_moves s)
                  /\ make_random_move r s = move_piece_from s from to.
Proof.
  intros Hm. unfold make_random_move. rewrite Hm.
  destruct (nth_error (m :: ms) (r mod List.length (m :: ms))) as [[from to]|] eqn:E.
  - exists from, to. split; [eapply nth_error_In; eauto | reflexivity].
  - exfalso. apply nth_error_None in E.
    pose proof (Nat.mod_upper_bound r (List.length (m :: ms))) as Hb.
    cbn [List.length] in *. lia.
Qed.

(** C7: the Easy AI reports the no-legal-move error exactly when the player to
    move has no generated move at all; with a single generated pair it plays
    that pair, whatever the random draw, and the move succeeds. *)
Theorem random_move_error_iff (r : nat) (s : GameState) :
  (fst (make_random_move r s) = Err "No valid moves for AI"%string <-> all_moves s = [])
  /\ (forall from to, all_moves s = [(from, to)] ->
        make_random_move r s = move_piece_from s from to
        /\ fst (move_piece_from s from to) = Ok tt).
Proof.
  split.
  - destruct (all_moves s) as [|m ms] eqn:Hm.
    + unfold make_random_move. rewrite Hm. split; reflexivity.
    + split; [|discriminate]. intros Herr. exfalso.
      destruct (make_random_move_pick r s m ms Hm) as (from & to & Hin & Heq).
      destruct (all_moves_in _ _ _ Hin) as [[pc Hpc] Ht].
      rewrite Heq, (move_piece_from_generated_ok _ _ _ _ Hpc Ht) in Herr. discriminate.
  - intros from to Hm.
    destruct (all_moves_in s from to) as [[pc Hpc] Ht]; [rewrite Hm; left; reflexivity|].
    split; [|exact (move_piece_from_generated_ok _ _ _ _ Hpc Ht)].
    unfold make_random_move. rewrite Hm. cbn [List.length].
    rewrite Nat.mod_1_r. reflexivity.
Qed.

Lemma random_move_error_iff_witness :
  make_random_move 5 lone_black_pawn
  = move_piece_from lone_black_pawn (mkPosition 0 2) (mkPosition 0 3)
  /\ fst (move_piece_from lone_black_pawn (mkPosition 0 2) (mkPosition 0 3)) = Ok tt.
Proof.
  apply (proj2 (random_move_error_iff 5 lone_black_pawn)). vm_compute. reflexivity.
Defined.

(** * Further properties of the code *)

(** ** Move generation *)

Lemma add_moves_free (ms : list (Z * Z)) (pos : Position) (g : SquareGrid) (c : Color)
    (t : Position) :
  In t (add_moves ms pos g c false) ->
  is_empty_square t g = true \/ can_capture_at t g c = true.
Proof.
  induction ms as [|[dx dy] ms IH]; cbn [add_moves]; [intros []|].
  rewrite in_app_iff. intros [H | H]; [|exact (IH H)].
  destruct (apply_delta pos dx dy) as [np|]; [|destruct H].
  destruct (is_empty_square np g) eqn:E1; [destruct H as [<- | []]; auto|].
  destruct (can_capture_at np g c) eqn:E2; [destruct H as [<- | []]; auto | destruct H].
Qed.

Lemma line_ray_free (fuel : nat) (step dx dy : Z) (pos : Position) (g : SquareGrid)
    (c : Color) (t : Position) :
  In t (line_ray fuel step dx dy pos g c) ->
  is_empty_square t g = true \/ can_capture_at t g c = true.
Proof.
  revert step. induction fuel as [|fuel IH]; intros step H; [destruct H|].
  cbn [line_ray] in H. cbv zeta in H.
  match type of H with
  | In _ (if ?cond then _ else _) => destruct cond; [destruct H|]
  end.
  destruct (nth_error g (Z.to_nat (Z.of_nat (y pos) + dy * step))) as [row|] eqn:Er;
    [|destruct H].
  destruct (nth_error row (Z.to_nat (Z.of_nat (x pos) + dx * step))) as [[sq|]|] eqn:Ec;
    [|destruct H|destruct H].
  assert (Hg : grid_square (mkPosition (Z.to_nat (Z.of_nat (x pos) + dx * step))
                                       (Z.to_nat (Z.of_nat (y pos) + dy * step))) g
               = Some sq)
    by (unfold grid_square; cbn [x y]; rewrite Er, Ec; reflexivity).
  destruct (piece sq) as [pc|] eqn:Ep.
  - destruct (Color_eqb (color pc) c) eqn:Hc; [destruct H|].
    destruct H as [<- | []]. right. unfold can_capture_at. rewrite Hg, Ep, Hc. reflexivity.
  - destruct H as [<- | H]; [|exact (IH _ H)].
    left. unfold is_empty_square. rewrite Hg, Ep. reflexivity.
Qed.

Lemma add_line_moves_free (ds : list (Z * Z)) (pos : Position) (g : SquareGrid)
    (c : Color) (t : Position) :
  In t (add_line_moves ds pos g c) ->
  is_empty_square t g = true \/ can_capture_at t g c = true.
Proof.
  induction ds as [|[dx dy] ds IH]; cbn [add_line_moves]; [intros []|].
  rewrite in_app_iff. intros [H | H]; [exact (line_ray_free _ _ _ _ _ _ _ _ H) | exact (IH H)].
Qed.

Lemma pawn_moves_free (pc : Piece) (pos : Position) (g : SquareGrid) (t : Position) :
  In t (pawn_moves pc pos g) ->
  is_empty_square t g = true \/ can_capture_at t g (color pc) = true.
Proof.
  unfold pawn_moves. cbv zeta. rewrite in_app_iff. intros [H | H].
  - destruct (apply_delta pos 0 _) as [np|]; [|destruct H].
    destruct (is_empty_square np g) eqn:E1; [|destruct H].
    destruct H as [<- | H]; [auto|].
    destruct (Nat.eqb (y pos) _); [|destruct H].
    destruct (apply_delta pos 0 (2 * _)) as [dp|]; [|destruct H].
    destruct (is_empty_square dp g) eqn:E2; [|destruct H].
    destruct H as [<- | []]. auto.
  - apply in_flat_map in H as (dx & _ & H).
    destruct (apply_delta pos dx _) as [cp|]; [|destruct H].
    destruct (can_capture_at cp g (color pc)) eqn:E; [|destruct H].
    destruct H as [<- | []]. auto.
Qed.

(** Every generated target of a piece is empty or holds a piece of the other
    color; in particular it is never the piece's own square. *)
Theorem generated_target_free (b : ChessBoard) (pos t : Position) (pc : Piece) :
  get_piece b pos = Some pc -> In t (calculate_moves_for b pos) ->
  t <> pos
  /\ (get_piece b t = None \/ exists q, get_piece b t = Some q /\ color q <> color pc).
Proof.
  intros Hp Ht.
  destruct (calculate_moves_for_bounds _ _ _ Ht) as [Htx Hty].
  assert (Hfree : is_empty_square t (squares_of b) = true
                  \/ can_capture_at t (squares_of b) (color pc) = true).
  { revert Ht. unfold calculate_moves_for. rewrite Hp.
    unfold get_valid_moves, calculate_moves. cbn [piece].
    destruct (piece_type pc).
    - apply pawn_moves_free.
    - apply add_line_moves_free.
    - apply add_moves_free.
    - apply add_line_moves_free.
    - apply add_line_moves_free.
    - apply add_moves_free. }
  rewrite is_empty_square_board, can_capture_at_board in Hfree by assumption.
  assert (Hf : get_piece b t = None \/ exists q, get_piece b t = Some q /\ color q <> color pc).
  { destruct (get_piece b t) as [q|]; [|auto].
    destruct Hfree as [H | H]; [discriminate|].
    right. exists q. split; [reflexivity|]. intros Heq.
    rewrite Heq in H. destruct (color pc); discriminate. }
  split; [|exact Hf].
  intros ->. rewrite Hp in Hf.
  destruct Hf as [H | (q & Hq & Hc)]; [discriminate|].
  injection Hq as <-. contradiction.
Qed.

Lemma generated_target_free_witness :
  mkPosition 2 5 <> mkPosition 1 7
  /\ (get_piece ChessBoard_new (mkPosition 2 5) = None
      \/ exists q, get_piece ChessBoard_new (mkPosition 2 5) = Some q
                   /\ color q <> color (mkPiece Knight White)).
Proof.
  apply (generated_target_free ChessBoard_new (mkPosition 1 7) (mkPosition 2 5)
           (mkPiece Knight White)); vm_compute; [reflexivity | auto].
Defined.

Lemma apply_delta_some_iff (p : Position) (dx dy : Z) (t : Position) :
  apply_delta p dx dy = Some t <->
  (0 <= Z.of_nat (x p) + dx < 8)%Z /\ (0 <= Z.of_nat (y p) + dy < 8)%Z
  /\ Z.of_nat (x t) = (Z.of_nat (x p) + dx)%Z /\ Z.of_nat (y t) = (Z.of_nat (y p) + dy)%Z.
Proof.
  unfold apply_delta, BOARD_SIZE. cbn zeta.
  destruct ((0 <=? Z.of_nat (x p) + dx)%Z && (Z.of_nat (x p) + dx <? Z.of_nat 8)%Z
            && (0 <=? Z.of_nat (y p) + dy)%Z && (Z.of_nat (y p) + dy <? Z.of_nat 8)%Z)
    eqn:E.
  - rewrite !andb_true_iff in E. destruct E as [[[E1 E2] E3] E4].
    apply Z.leb_le in E1, E3. apply Z.ltb_lt in E2, E4.
    split.
    + intros H; injection H as <-. cbn [x y]. rewrite !Z2Nat.id by lia. lia.
    + intros (_ & _ & Hx & Hy). destruct t as [tx ty]. cbn [x y] in *.
      f_equal; f_equal; lia.
  - split; [discriminate|]. intros (H1 & H2 & _).
    rewrite !andb_false_iff in E.
    rewrite Z.leb_gt in E. rewrite Z.ltb_ge in E. rewrite Z.leb_gt in E. rewrite Z.ltb_ge in E.
    lia.
Qed.

Lemma squares_of_row (b : ChessBoard) (r : nat) :
  r < 8 ->
  nth_error (squares_of b) r
  = Some (map (fun col => Some (mkSquare col r (board b r col))) (seq 0 BOARD_SIZE)).
Proof.
  intros Hr. unfold squares_of. rewrite nth_error_map, nth_error_seq.
  replace (Nat.ltb r BOARD_SIZE) with true
    by (symmetry; apply Nat.ltb_lt; unfold BOARD_SIZE; lia).
  reflexivity.
Qed.

Lemma squares_of_cell (b : ChessBoard) (r c : nat) :
  c < 8 ->
  nth_error (map (fun col => Some (mkSquare col r (board b r col))) (seq 0 BOARD_SIZE)) c
  = Some (Some (mkSquare c r (board b r c))).
Proof.
  intros Hc. rewrite nth_error_map, nth_error_seq.
  replace (Nat.ltb c BOARD_SIZE) with true
    by (symmetry; apply Nat.ltb_lt; unfold BOARD_SIZE; lia).
  reflexivity.
Qed.

Lemma free_target_iff (b : ChessBoard) (t : Position) (c : Color) :
  x t < 8 -> y t < 8 ->
  (is_empty_square t (squares_of b) || can_capture_at t (squares_of b) c = true <->
   get_piece b t = None \/ exists q, get_piece b t = Some q /\ color q <> c).
Proof.
  intros Hx Hy. rewrite is_empty_square_board, can_capture_at_board by assumption.
  destruct (get_piece b t) as [q|]; cbn [orb].
  - split.
    + intros H. right. exists q. split; [reflexivity|]. intros Heq.
      rewrite Heq in H. destruct c; discriminate.
    + intros [H | (q' & Hq & Hc)]; [discriminate|]. injection Hq as <-.
      destruct (color q), c; cbn; congruence.
  - split; auto.
Qed.

(** Generated moves of a piece using a table of fixed offsets. *)
Lemma add_moves_board_iff (b : ChessBoard) (ms : list (Z * Z)) (pos : Position)
    (c : Color) (t : Position) :
  In t (add_moves ms pos (squares_of b) c false) <->
  exists dx dy, In (dx, dy) ms /\ apply_delta pos dx dy = Some t
    /\ (get_piece b t = None \/ exists q, get_piece b t = Some q /\ color q <> c).
Proof.
  induction ms as [|[dx dy] ms IH]; cbn [add_moves].
  - split; [intros []|]. intros (dx & dy & [] & _).
  - rewrite in_app_iff, IH. split.
    + intros [H | (dx' & dy' & Hin & Ha & Hf)].
      * destruct (apply_delta pos dx dy) as [np|] eqn:Ea; [|destruct H].
        destruct (is_empty_square np (squares_of b) || can_capture_at np (squares_of b) c)
          eqn:Ef; [|destruct H].
        destruct H as [<- | []].
        destruct (apply_delta_bounds _ _ _ _ Ea) as [Hx Hy].
        exists dx, dy. split; [left; reflexivity|]. split; [exact Ea|].
        apply free_target_iff; assumption.
      * exists dx', dy'. split; [right; exact Hin|]. auto.
    + intros (dx' & dy' & [Heq | Hin] & Ha & Hf).
      * injection Heq as <- <-. left. rewrite Ha.
        destruct (apply_delta_bounds _ _ _ _ Ha) as [Hx Hy].
        apply (free_target_iff b t c Hx Hy) in Hf. rewrite Hf. left. reflexivity.
      * right. exists dx', dy'. auto.
Qed.

(** One ray of a sliding piece: [t] is reached at some distance [k] from [step] on,
    every square strictly before it on the ray is empty, and [t] is empty or
    holds a piece of the other color. *)
Lemma line_ray_board_iff (b : ChessBoard) (fuel : nat) (step dx dy : Z) (pos : Position)
    (c : Color) (t : Position) :
  In t (line_ray fuel step dx dy pos (squares_of b) c) <->
  exists k, (step <= k < step + Z.of_nat fuel)%Z
    /\ apply_delta pos (dx * k) (dy * k) = Some t
    /\ (forall j, (step <= j < k)%Z ->
          exists m, apply_delta pos (dx * j) (dy * j) = Some m /\ get_piece b m = None)
    /\ (get_piece b t = None \/ exists q, get_piece b t = Some q /\ color q <> c).
Proof.
  revert step. induction fuel as [|fuel IH]; intros step.
  { cbn [line_ray]. split; [intros []|]. intros (k & Hk & _). lia. }
  cbn [line_ray]. cbv zeta. unfold BOARD_SIZE.
  destruct ((Z.of_nat (x pos) + dx * step <? 0)%Z || (Z.of_nat 8 <=? Z.of_nat (x pos) + dx * step)%Z
            || (Z.of_nat (y pos) + dy * step <? 0)%Z || (Z.of_nat 8 <=? Z.of_nat (y pos) + dy * step)%Z)
    eqn:Eb.
  - (* out of the board at [step] *)
    assert (Hnone : forall m, apply_delta pos (dx * step) (dy * step) <> Some m).
    { intros m Hm. apply apply_delta_some_iff in Hm.
      rewrite !orb_true_iff, !Z.ltb_lt, !Z.leb_le in Eb. lia. }
    split; [intros []|].
    intros (k & Hk & Ha & Hj & _).
    destruct (Z.eq_dec k step) as [-> | Hne]; [exact (Hnone _ Ha)|].
    destruct (Hj step ltac:(lia)) as (m & Hm & _). exact (Hnone _ Hm).
  - rewrite !orb_false_iff, !Z.ltb_ge, !Z.leb_gt in Eb.
    set (np := mkPosition (Z.to_nat (Z.of_nat (x pos) + dx * step))
                          (Z.to_nat (Z.of_nat (y pos) + dy * step))).
    assert (Hnp : apply_delta pos (dx * step) (dy * step) = Some np).
    { apply apply_delta_some_iff. subst np. cbn [x y]. rewrite !Z2Nat.id by lia. lia. }
    assert (Hx : x np < 8) by (subst np; cbn [x]; lia).
    assert (Hy : y np < 8) by (subst np; cbn [y]; lia).
    change (Z.to_nat (Z.of_nat (y pos) + dy * step)) with (y np).
    change (Z.to_nat (Z.of_nat (x pos) + dx * step)) with (x np).
    rewrite squares_of_row, squares_of_cell by assumption. cbn [piece].
    rewrite <- get_piece_in by assumption.
    assert (Hlater : forall k, (step < k)%Z ->
              (forall j, (step <= j < k)%Z ->
                 exists m, apply_delta pos (dx * j) (dy * j) = Some m /\ get_piece b m = None) ->
              get_piece b np = None).
    { intros k Hk Hj. destruct (Hj step ltac:(lia)) as (m & Hm & Hpm).
      rewrite Hnp in Hm. injection Hm as <-. exact Hpm. }
    destruct (get_piece b np) as [pc|] eqn:Ep.
    + assert (Hk_step : forall k, (step <= k)%Z ->
                (forall j, (step <= j < k)%Z ->
                   exists m, apply_delta pos (dx * j) (dy * j) = Some m /\ get_piece b m = None) ->
                k = step).
      { intros k Hk Hj. destruct (Z.eq_dec k step) as [-> | Hne]; [reflexivity|].
        specialize (Hlater k ltac:(lia) Hj). discriminate. }
      destruct (Color_eqb (color pc) c) eqn:Hc.
      * split; [intros []|]. intros (k & Hk & Ha & Hj & Hf).
        rewrite (Hk_step k ltac:(lia) Hj), Hnp in Ha. injection Ha as <-.
        rewrite Ep in Hf. destruct Hf as [H | (q & Hq & Hqc)]; [discriminate|].
        injection Hq as <-. apply Color_eqb_true in Hc. contradiction.
      * split.
        -- intros [<- | []]. exists step. split; [lia|]. split; [exact Hnp|].
           split; [intros j Hj; lia|]. right. exists pc. split; [exact Ep|].
           intros Heq. rewrite Heq in Hc. destruct c; discriminate.
        -- intros (k & Hk & Ha & Hj & Hf). left.
           rewrite (Hk_step k ltac:(lia) Hj), Hnp in Ha. injection Ha as <-. reflexivity.
    + cbn [In]. rewrite IH. split.
      * intros [<- | (k & Hk & Ha & Hj & Hf)].
        -- exists step. split; [lia|]. split; [exact Hnp|].
           split; [intros j Hj; lia|]. left. exact Ep.
        -- exists k. split; [lia|]. split; [exact Ha|]. split; [|exact Hf].
           intros j Hjr. destruct (Z.eq_dec j step) as [-> | Hne].
           ++ exists np. auto.
           ++ apply Hj. lia.
      * intros (k & Hk & Ha & Hj & Hf).
        destruct (Z.eq_dec k step) as [-> | Hne].
        -- left. rewrite Hnp in Ha. injection Ha as <-. reflexivity.
        -- right. exists k. split; [lia|]. split; [exact Ha|]. split; [|exact Hf].
           intros j Hjr. apply Hj. lia.
Qed.

Lemma add_line_moves_board_iff (b : ChessBoard) (ds : list (Z * Z)) (pos : Position)
    (c : Color) (t : Position) :
  x pos < 8 -> y pos < 8 ->
  (forall dx dy, In (dx, dy) ds -> (dx = 1 \/ dx = -1 \/ dy = 1 \/ dy = -1)%Z) ->
  In t (add_line_moves ds pos (squares_of b) c) <->
  exists dx dy, In (dx, dy) ds /\ ray_reach b pos c dx dy t.
Proof.
  intros Hx Hy Hd. induction ds as [|[dx dy] ds IH]; cbn [add_line_moves].
  - split; [intros []|]. intros (dx & dy & [] & _).
  - rewrite in_app_iff, line_ray_board_iff, IH
      by (intros dx' dy' Hin; apply (Hd dx' dy'); right; exact Hin).
    unfold ray_reach. split.
    + intros [(k & Hk & Ha & Hj & Hf) | (dx' & dy' & Hin & Hr)].
      * exists dx, dy. split; [left; reflexivity|]. exists k. repeat split; auto; lia.
      * exists dx', dy'. split; [right; exact Hin | exact Hr].
    + intros (dx' & dy' & [Heq | Hin] & Hr).
      * injection Heq as <- <-. left. destruct Hr as (k & Hk & Ha & Hj & Hf).
        exists k. split; [|auto].
        apply apply_delta_some_iff in Ha.
        destruct (Hd dx dy (or_introl eq_refl)) as [-> | [-> | [-> | ->]]];
          unfold BOARD_SIZE; lia.
      * right. exists dx', dy'. auto.
Qed.

Lemma rook_dirs_unit (dx dy : Z) :
  In (dx, dy) rook_dirs -> (dx = 1 \/ dx = -1 \/ dy = 1 \/ dy = -1)%Z.
Proof.
  unfold rook_dirs. intros H.
  repeat (destruct H as [H | H]; [injection H as <- <-; lia|]). destruct H.
Qed.

Lemma bishop_dirs_unit (dx dy : Z) :
  In (dx, dy) bishop_dirs -> (dx = 1 \/ dx = -1 \/ dy = 1 \/ dy = -1)%Z.
Proof.
  unfold bishop_dirs. intros H.
  repeat (destruct H as [H | H]; [injection H as <- <-; lia|]). destruct H.
Qed.

Lemma queen_dirs_unit (dx dy : Z) :
  In (dx, dy) queen_dirs -> (dx = 1 \/ dx = -1 \/ dy = 1 \/ dy = -1)%Z.
Proof.
  unfold queen_dirs. intros H.
  repeat (destruct H as [H | H]; [injection H as <- <-; lia|]). destruct H.
Qed.

Lemma slider_moves_iff (b : ChessBoard) (pos t : Position) (pc : Piece)
    (ds : list (Z * Z)) :
  get_piece b pos = Some pc ->
  (piece_type pc = Rook /\ ds = rook_dirs \/ piece_type pc = Bishop /\ ds = bishop_dirs
   \/ piece_type pc = Queen /\ ds = queen_dirs) ->
  In t (calculate_moves_for b pos) <->
  exists dx dy, In (dx, dy) ds /\ ray_reach b pos (color pc) dx dy t.
Proof.
  intros Hp Hk. destruct (get_piece_bounds _ _ _ Hp) as (Hx & Hy & _).
  unfold calculate_moves_for. rewrite Hp. unfold get_valid_moves, calculate_moves.
  cbn [piece].
  destruct Hk as [[-> ->] | [[-> ->] | [-> ->]]];
    apply add_line_moves_board_iff; auto.
  - apply rook_dirs_unit.
  - apply bishop_dirs_unit.
  - apply queen_dirs_unit.
Qed.

(** The rays of a sliding piece only read the board away from its own square. *)
Lemma ray_reach_frame (b b' : ChessBoard) (pos : Position) (c : Color) (dx dy : Z)
    (t : Position) :
  (dx = 1 \/ dx = -1 \/ dy = 1 \/ dy = -1)%Z ->
  (forall m, m <> pos -> get_piece b' m = get_piece b m) ->
  ray_reach b pos c dx dy t <-> ray_reach b' pos c dx dy t.
Proof.
  intros Hd Hframe.
  assert (Hne : forall k m, (1 <= k)%Z -> apply_delta pos (dx * k) (dy * k) = Some m ->
                m <> pos).
  { intros k m Hk Ha ->. apply apply_delta_some_iff in Ha.
    destruct Hd as [-> | [-> | [-> | ->]]]; lia. }
  unfold ray_reach. split.
  - intros (k & Hk & Ha & Hj & Hf). exists k. split; [exact Hk|]. split; [exact Ha|].
    split.
    + intros j Hjr. destruct (Hj j Hjr) as (m & Hm & Hpm). exists m. split; [exact Hm|].
      rewrite Hframe by (apply (Hne j); [lia | exact Hm]). exact Hpm.
    + rewrite Hframe by (apply (Hne k); assumption). exact Hf.
  - intros (k & Hk & Ha & Hj & Hf). exists k. split; [exact Hk|]. split; [exact Ha|].
    split.
    + intros j Hjr. destruct (Hj j Hjr) as (m & Hm & Hpm). exists m. split; [exact Hm|].
      rewrite <- Hframe by (apply (Hne j); [lia | exact Hm]). exact Hpm.
    + rewrite <- Hframe by (apply (Hne k); assumption). exact Hf.
Qed.

Lemma get_piece_set_cell_other (b : ChessBoard) (pos m : Position) (v : option Piece)
    (l : list Piece) :
  m <> pos ->
  get_piece (mkChessBoard (set_cell (board b) (y pos) (x pos) v) l) m = get_piece b m.
Proof.
  intros Hne. unfold get_piece, set_cell. cbn [board].
  destruct ((8 <=? x m) || (8 <=? y m)); [reflexivity|].
  destruct (Nat.eqb (y m) (y pos)) eqn:E1; [|reflexivity].
  destruct (Nat.eqb (x m) (x pos)) eqn:E2; [|reflexivity].
  apply Nat.eqb_eq in E1, E2. destruct m, pos; cbn in *; subst. contradiction.
Qed.

Lemma get_piece_set_cell_same (b : ChessBoard) (pos : Position) (pc : Piece)
    (l : list Piece) :
  x pos < 8 -> y pos < 8 ->
  get_piece (mkChessBoard (set_cell (board b) (y pos) (x pos) (Some pc)) l) pos = Some pc.
Proof.
  intros Hx Hy. rewrite get_piece_in by assumption. unfold set_cell. cbn [board].
  rewrite !Nat.eqb_refl. reflexivity.
Qed.

(** [Position::apply_delta] round trip: from an on-board position, stepping by
    [(dx, dy)] and back by [(-dx, -dy)] returns to the start. *)
Theorem apply_delta_round_trip (p t : Position) (dx dy : Z) :
  x p < 8 -> y p < 8 -> apply_delta p dx dy = Some t ->
  apply_delta t (- dx) (- dy) = Some p.
Proof.
  intros Hx Hy Ha. apply apply_delta_some_iff in Ha.
  apply apply_delta_some_iff. lia.
Qed.

Lemma apply_delta_round_trip_witness :
  apply_delta (mkPosition 1 5) 2 (-1) = Some (mkPosition 3 4).
Proof.
  apply (apply_delta_round_trip (mkPosition 3 4) (mkPosition 1 5) (-2) 1);
    [cbn; lia | cbn; lia | vm_compute; reflexivity].
Defined.

(** Knights and kings ([Square::add_moves] with captures allowed): a target is
    exactly an on-board square at one of the piece's offsets that is empty or
    holds a piece of the other color. *)
Theorem leaper_moves (b : ChessBoard) (pos t : Position) (pc : Piece) :
  get_piece b pos = Some pc ->
  (piece_type pc = Knight ->
   (In t (calculate_moves_for b pos) <->
    exists dx dy, In (dx, dy) knight_moves /\ apply_delta pos dx dy = Some t
      /\ (get_piece b t = None \/ exists q, get_piece b t = Some q /\ color q <> color pc)))
  /\ (piece_type pc = King ->
   (In t (calculate_moves_for b pos) <->
    exists dx dy, In (dx, dy) king_moves /\ apply_delta pos dx dy = Some t
      /\ (get_piece b t = None \/ exists q, get_piece b t = Some q /\ color q <> color pc))).
Proof.
  intros Hp. unfold calculate_moves_for. rewrite Hp.
  unfold get_valid_moves, calculate_moves. cbn [piece].
  split; intros ->; apply add_moves_board_iff.
Qed.

Lemma leaper_moves_witness :
  In (mkPosition 2 5) (calculate_moves_for ChessBoard_new (mkPosition 1 7)) <->
  exists dx dy, In (dx, dy) knight_moves
    /\ apply_delta (mkPosition 1 7) dx dy = Some (mkPosition 2 5)
    /\ (get_piece ChessBoard_new (mkPosition 2 5) = None
        \/ exists q, get_piece ChessBoard_new (mkPosition 2 5) = Some q
                     /\ color q <> color (mkPiece Knight White)).
Proof.
  apply (proj1 (leaper_moves ChessBoard_new (mkPosition 1 7) (mkPosition 2 5)
                  (mkPiece Knight White) ltac:(vm_compute; reflexivity))).
  reflexivity.
Defined.

(** Rooks, bishops and queens ([Square::add_line_moves]): a target is exactly a
    square reached along one of the piece's directions, past empty squares only,
    that is empty or holds a piece of the other color. *)
Theorem slider_moves (b : ChessBoard) (pos t : Position) (pc : Piece) (ds : list (Z * Z)) :
  get_piece b pos = Some pc ->
  (piece_type pc = Rook /\ ds = rook_dirs \/ piece_type pc = Bishop /\ ds = bishop_dirs
   \/ piece_type pc = Queen /\ ds = queen_dirs) ->
  In t (calculate_moves_for b pos) <->
  exists dx dy, In (dx, dy) ds /\ ray_reach b pos (color pc) dx dy t.
Proof.
  exact (slider_moves_iff b pos t pc ds).
Qed.

Lemma slider_moves_witness :
  In (mkPosition 0 0) (calculate_moves_for (gboard rook_vs_queen) (mkPosition 0 4)) <->
  exists dx dy, In (dx, dy) rook_dirs
    /\ ray_reach (gboard rook_vs_queen) (mkPosition 0 4) (color (mkPiece Rook White))
         dx dy (mkPosition 0 0).
Proof.
  apply (slider_moves (gboard rook_vs_queen) (mkPosition 0 4) (mkPosition 0 0)
           (mkPiece Rook White) rook_dirs).
  - vm_compute. reflexivity.
  - left. split; reflexivity.
Defined.

Lemma queen_dirs_split (d : Z * Z) :
  In d queen_dirs <-> In d rook_dirs \/ In d bishop_dirs.
Proof.
  unfold queen_dirs, rook_dirs, bishop_dirs. split.
  - intros H. repeat (destruct H as [<- | H]; [cbn; auto 20|]). destruct H.
  - intros [H | H]; repeat (destruct H as [<- | H]; [cbn; auto 20|]); destruct H.
Qed.

(** A queen moves exactly as a rook or a bishop of its color would from the same
    square: its targets are the union of theirs. *)
Theorem queen_moves_rook_or_bishop (b : ChessBoard) (pos t : Position) (c : Color) :
  get_piece b pos = Some (mkPiece Queen c) ->
  In t (calculate_moves_for b pos) <->
  In t (calculate_moves_for
          (mkChessBoard (set_cell (board b) (y pos) (x pos) (Some (mkPiece Rook c)))
                        (captured_pieces b)) pos)
  \/ In t (calculate_moves_for
          (mkChessBoard (set_cell (board b) (y pos) (x pos) (Some (mkPiece Bishop c)))
                        (captured_pieces b)) pos).
Proof.
  intros Hp. destruct (get_piece_bounds _ _ _ Hp) as (Hx & Hy & _).
  rewrite (slider_moves_iff b pos t _ queen_dirs Hp
             (or_intror (or_intror (conj eq_refl eq_refl)))).
  rewrite (slider_moves_iff _ pos t (mkPiece Rook c) rook_dirs
             (get_piece_set_cell_same _ _ _ _ Hx Hy) (or_introl (conj eq_refl eq_refl))).
  rewrite (slider_moves_iff _ pos t (mkPiece Bishop c) bishop_dirs
             (get_piece_set_cell_same _ _ _ _ Hx Hy)
             (or_intror (or_introl (conj eq_refl eq_refl)))).
  cbn [color].
  split.
  - intros (dx & dy & Hin & Hr).
    pose proof (queen_dirs_unit dx dy Hin) as Hd.
    apply queen_dirs_split in Hin. destruct Hin as [Hin | Hin]; [left | right];
      exists dx, dy; split; [exact Hin| |exact Hin|];
      (apply (ray_reach_frame b); [exact Hd | intros m Hm; apply get_piece_set_cell_other; exact Hm | exact Hr]).
  - intros [(dx & dy & Hin & Hr) | (dx & dy & Hin & Hr)].
    + pose proof (rook_dirs_unit dx dy Hin) as Hd.
      exists dx, dy. split; [apply queen_dirs_split; left; exact Hin|].
      apply (ray_reach_frame b) in Hr; [exact Hr | exact Hd |].
      intros m Hm; apply get_piece_set_cell_other; exact Hm.
    + pose proof (bishop_dirs_unit dx dy Hin) as Hd.
      exists dx, dy. split; [apply queen_dirs_split; right; exact Hin|].
      apply (ray_reach_frame b) in Hr; [exact Hr | exact Hd |].
      intros m Hm; apply get_piece_set_cell_other; exact Hm.
Qed.

Lemma queen_moves_rook_or_bishop_witness :
  In (mkPosition 0 4) (calculate_moves_for (gboard rook_vs_queen) (mkPosition 0 0)) <->
  In (mkPosition 0 4) (calculate_moves_for
          (mkChessBoard (set_cell (board (gboard rook_vs_queen)) 0 0
                           (Some (mkPiece Rook Black)))
                        (captured_pieces (gboard rook_vs_queen))) (mkPosition 0 0))
  \/ In (mkPosition 0 4) (calculate_moves_for
          (mkChessBoard (set_cell (board (gboard rook_vs_queen)) 0 0
                           (Some (mkPiece Bishop Black)))
                        (captured_pieces (gboard rook_vs_queen))) (mkPosition 0 0)).
Proof.
  apply (queen_moves_rook_or_bishop (gboard rook_vs_queen) (mkPosition 0 0)
           (mkPosition 0 4) Black).
  vm_compute. reflexivity.
Defined.

(** ** board.rs *)

(** [ChessBoard::move_piece] with both positions on the board and a piece on the
    source: the piece lands on the target, the source is emptied, no other cell
    changes, and whatever stood on the target, of either color, is appended to
    the captured pieces. The method checks no rule of movement. *)
Theorem move_piece_relocates (b : ChessBoard) (from to : Position) (pc : Piece) :
  x to < 8 -> y to < 8 -> from <> to -> get_piece b from = Some pc ->
  exists b', move_piece b from to = (Ok tt, b')
    /\ get_piece b' to = Some pc
    /\ get_piece b' from = None
    /\ (forall q, q <> from -> q <> to -> get_piece b' q = get_piece b q)
    /\ captured_pieces b' = captured_pieces b
                            ++ match get_piece b to with Some cp => [cp] | None => [] end.
Proof.
  intros Htx Hty Hne Hp. destruct (get_piece_bounds _ _ _ Hp) as (Hfx & Hfy & Hb).
  unfold move_piece.
  replace ((8 <=? x from) || (8 <=? y from) || (8 <=? x to) || (8 <=? y to)) with false
    by (symmetry; rewrite !orb_false_iff, !Nat.leb_gt; lia).
  rewrite Hb. eexists. split; [reflexivity|].
  assert (Hcell : forall l q, x q < 8 -> y q < 8 ->
            get_piece (mkChessBoard (set_cell (set_cell (board b) (y to) (x to) (Some pc))
                                       (y from) (x from) None) l) q
            = if Position_eqb q from then None
              else if Position_eqb q to then Some pc else get_piece b q).
  { intros l q Hqx Hqy. rewrite !get_piece_in by assumption. unfold set_cell, Position_eqb.
    cbn [board]. rewrite (andb_comm (Nat.eqb (x q) (x from))),
                         (andb_comm (Nat.eqb (x q) (x to))). reflexivity. }
  repeat split.
  - rewrite (get_piece_in _ to) by assumption. cbn [board]. unfold set_cell.
    destruct (Nat.eqb (y to) (y from) && Nat.eqb (x to) (x from)) eqn:E.
    + exfalso. apply Hne. rewrite andb_true_iff, !Nat.eqb_eq in E.
      destruct from, to; cbn in *; f_equal; lia.
    + rewrite !Nat.eqb_refl. reflexivity.
  - rewrite (get_piece_in _ from) by assumption. cbn [board]. unfold set_cell.
    rewrite !Nat.eqb_refl. reflexivity.
  - intros q Hq1 Hq2.
    destruct (Nat.lt_ge_cases (x q) 8) as [Hqx | Hqx];
      [destruct (Nat.lt_ge_cases (y q) 8) as [Hqy | Hqy]|].
    + rewrite Hcell by assumption.
      destruct (Position_eqb q from) eqn:E1; [apply Position_eqb_true in E1; contradiction|].
      destruct (Position_eqb q to) eqn:E2; [apply Position_eqb_true in E2; contradiction|].
      reflexivity.
    + unfold get_piece. apply Nat.leb_le in Hqy. rewrite Hqy, !orb_true_r. reflexivity.
    + unfold get_piece. apply Nat.leb_le in Hqx. rewrite Hqx. reflexivity.
  - cbn [captured_pieces]. rewrite get_piece_in by assumption.
    destruct (board b (y to) (x to)); [reflexivity|]. rewrite app_nil_r. reflexivity.
Qed.

Lemma move_piece_relocates_witness :
  exists b', move_piece ChessBoard_new (mkPosition 4 6) (mkPosition 4 4) = (Ok tt, b')
    /\ get_piece b' (mkPosition 4 4) = Some (mkPiece Pawn White)
    /\ get_piece b' (mkPosition 4 6) = None
    /\ (forall q, q <> mkPosition 4 6 -> q <> mkPosition 4 4 ->
                  get_piece b' q = get_piece ChessBoard_new q)
    /\ captured_pieces b' = captured_pieces ChessBoard_new
         ++ match get_piece ChessBoard_new (mkPosition 4 4) with
            | Some cp => [cp] | None => [] end.
Proof.
  apply move_piece_relocates.
  - cbn. lia.
  - cbn. lia.
  - discriminate.
  - vm_compute. reflexivity.
Defined.

(** [ChessBoard::move_piece] errors: a position off the board gives
    "Invalid position", an empty source gives "No piece at source position", and
    in both cases the board is returned unchanged. *)
Theorem move_piece_errors (b : ChessBoard) (from to : Position) :
  ((8 <= x from \/ 8 <= y from \/ 8 <= x to \/ 8 <= y to) ->
   move_piece b from to = (Err "Invalid position"%string, b))
  /\ (x from < 8 -> y from < 8 -> x to < 8 -> y to < 8 -> get_piece b from = None ->
      move_piece b from to = (Err "No piece at source position"%string, b)).
Proof.
  unfold move_piece. split.
  - intros H.
    replace ((8 <=? x from) || (8 <=? y from) || (8 <=? x to) || (8 <=? y to)) with true
      by (symmetry; rewrite !orb_true_iff, !Nat.leb_le; tauto).
    reflexivity.
  - intros H1 H2 H3 H4 Hp.
    replace ((8 <=? x from) || (8 <=? y from) || (8 <=? x to) || (8 <=? y to)) with false
      by (symmetry; rewrite !orb_false_iff, !Nat.leb_gt; lia).
    rewrite get_piece_in in Hp by assumption. rewrite Hp. reflexivity.
Qed.

Lemma in_all_positions (p : Position) : In p all_positions <-> x p < 8 /\ y p < 8.
Proof.
  unfold all_positions. rewrite in_flat_map. split.
  - intros (r & Hr & Hp). apply in_map_iff in Hp as (c & <- & Hc).
    apply in_seq in Hr, Hc. cbn [x y]. lia.
  - intros [Hx Hy]. exists (y p). split; [apply in_seq; lia|].
    apply in_map_iff. exists (x p). split; [destruct p; reflexivity | apply in_seq; lia].
Qed.

(** [ChessBoard::is_king_in_check] on a board without a king of the color: the
    color is never in check. *)
Theorem is_king_in_check_no_king (b : ChessBoard) (c : Color) :
  (forall p, get_piece b p <> Some (mkPiece King c)) -> is_king_in_check b c = false.
Proof.
  intros Hno. unfold is_king_in_check. cbv zeta.
  destruct (find _ all_positions) as [kp|] eqn:Ef; [|reflexivity].
  apply find_some in Ef as [Hin Hk]. apply in_all_positions in Hin as [Hx Hy].
  destruct (board b (y kp) (x kp)) as [[pt pcol]|] eqn:Eb; [|discriminate].
  cbn [piece_type color] in Hk. rewrite andb_true_iff, Color_eqb_true in Hk.
  destruct Hk as [Hk ->]. destruct pt; try discriminate.
  exfalso. apply (Hno kp). rewrite get_piece_in by assumption. exact Eb.
Qed.

Lemma is_king_in_check_no_king_witness :
  is_king_in_check (gboard lone_black_pawn) Black = false.
Proof.
  apply is_king_in_check_no_king. intros p.
  unfold get_piece.
  destruct ((8 <=? x p) || (8 <=? y p)) eqn:E; [discriminate|].
  rewrite orb_false_iff, !Nat.leb_gt in E. destruct E as [Hx Hy].
  destruct p as [px py]; cbn [x y] in *.
  destruct px as [|[|[|[|[|[|[|[|px]]]]]]]]; try (exfalso; lia).
  all: destruct py as [|[|[|[|[|[|[|[|py]]]]]]]]; try (exfalso; lia).
  all: vm_compute; discriminate.
Defined.

(** [ChessBoard::is_king_in_check] with a single king of the color: the color is
    in check exactly when some piece of the other color has the king's square
    among its generated moves. *)
Theorem is_king_in_check_iff (b : ChessBoard) (c : Color) (kp : Position) :
  get_piece b kp = Some (mkPiece King c) ->
  (forall p, get_piece b p = Some (mkPiece King c) -> p = kp) ->
  is_king_in_check b c = true <->
  exists q pc, get_piece b q = Some pc /\ color pc <> c
               /\ In kp (calculate_moves_for b q).
Proof.
  intros Hk Huniq. destruct (get_piece_bounds _ _ _ Hk) as (Hkx & Hky & Hkb).
  unfold is_king_in_check. cbv zeta.
  destruct (find _ all_positions) as [kp'|] eqn:Ef.
  - apply find_some in Ef as [Hin Hk']. apply in_all_positions in Hin as [Hx Hy].
    destruct (board b (y kp') (x kp')) as [[pt pcol]|] eqn:Eb; [|discriminate].
    cbn [piece_type color] in Hk'. rewrite andb_true_iff, Color_eqb_true in Hk'.
    destruct Hk' as [Hpt ->]. destruct pt; try discriminate.
    assert (kp' = kp) as ->.
    { apply Huniq. rewrite get_piece_in by assumption. exact Eb. }
    rewrite existsb_exists. split.
    + intros (q & Hq & Hm). apply in_all_positions in Hq as [Hqx Hqy].
      destruct (board b (y q) (x q)) as [pc|] eqn:Eq; [|discriminate].
      destruct (negb (Color_eqb (color pc) c)) eqn:Hc; [|discriminate].
      exists q, pc. split; [rewrite get_piece_in by assumption; exact Eq|].
      split; [intros Heq; rewrite Heq in Hc; destruct c; discriminate|].
      unfold calculate_moves_for. rewrite get_piece_in, Eq by assumption.
      apply existsb_exists in Hm as (m & Hm & Heq).
      apply Position_eqb_true in Heq. subst m. exact Hm.
    + intros (q & pc & Hq & Hc & Hm).
      destruct (get_piece_bounds _ _ _ Hq) as (Hqx & Hqy & Hqb).
      exists q. split; [apply in_all_positions; auto|].
      rewrite Hqb.
      replace (negb (Color_eqb (color pc) c)) with true
        by (destruct (color pc), c; cbn; congruence).
      unfold calculate_moves_for in Hm. rewrite Hq in Hm.
      apply existsb_exists. exists kp. split; [exact Hm | apply Position_eqb_refl].
  - exfalso.
    assert (Hin : In kp all_positions) by (apply in_all_positions; auto).
    pose proof (find_none _ _ Ef kp Hin) as H. cbv beta in H.
    rewrite Hkb in H. cbn in H. destruct c; discriminate.
Qed.

Lemma is_king_in_check_iff_witness :
  is_king_in_check (gboard rook_takes_king) Black = true <->
  exists q pc, get_piece (gboard rook_takes_king) q = Some pc /\ color pc <> Black
               /\ In (mkPosition 0 0) (calculate_moves_for (gboard rook_takes_king) q).
Proof.
  apply is_king_in_check_iff.
  - vm_compute. reflexivity.
  - intros p Hp. destruct (get_piece_bounds _ _ _ Hp) as (Hx & Hy & Hb).
    destruct p as [px py]; cbn [x y] in *.
    destruct px as [|[|[|[|[|[|[|[|px]]]]]]]]; try (exfalso; lia).
    all: destruct py as [|[|[|[|[|[|[|[|py]]]]]]]]; try (exfalso; lia).
    all: vm_compute in Hb; first [reflexivity | discriminate].
Defined.

(** ** state.rs *)

(** [GameState::move_piece_from] accepts a move exactly when the target is among
    the generated moves of the source square. It checks neither whose turn it is
    nor whether the game is over. *)
Theorem move_piece_from_ok_iff (s : GameState) (from to : Position) :
  fst (move_piece_from s from to) = Ok tt <-> In to (calculate_moves_for (gboard s) from).
Proof.
  split.
  - unfold move_piece_from. cbv zeta.
    destruct (existsb (Position_eqb to) (calculate_moves_for (gboard s) from)) eqn:E.
    + intros _. apply existsb_exists in E as (m & Hm & Heq).
      apply Position_eqb_true in Heq. subst m. exact Hm.
    + cbn. discriminate.
  - intros Hin.
    destruct (get_piece (gboard s) from) as [pc|] eqn:Hp.
    + exact (move_piece_from_generated_ok s from to pc Hp Hin).
    + unfold calculate_moves_for in Hin. rewrite Hp in Hin. destruct Hin.
Qed.

(** A successful [GameState::move_piece_from]: the board is the one
    [ChessBoard::move_piece] returns, the turn passes to the other color, the
    selection is cleared, the configuration is kept, one notation entry is
    appended to the history, a finished game stays finished, and the check flag
    is [is_king_in_check] of the new board for the color now to move. *)
Theorem move_piece_from_ok_state (s s' : GameState) (from to : Position) (u : unit) :
  move_piece_from s from to = (Ok u, s') ->
  gboard s' = snd (move_piece (gboard s) from to)
  /\ current_player s' = opposite (current_player s)
  /\ selected_square s' = None /\ possible_moves s' = []
  /\ config s' = config s
  /\ (exists n, move_history s' = move_history s ++ [n])
  /\ (game_over s = true -> game_over s' = true)
  /\ is_check s' = is_king_in_check (gboard s') (current_player s').
Proof.
  intros H. unfold move_piece_from in H. cbv zeta in H.
  destruct (negb (existsb (Position_eqb to) (calculate_moves_for (gboard s) from)));
    [discriminate|].
  destruct (get_piece (gboard s) from) as [sp|]; [|discriminate].
  destruct (move_piece (gboard s) from to) as [[u'|e] b'] eqn:Em; [|discriminate].
  injection H as <- <-. cbn [gboard current_player selected_square possible_moves
                                config move_history game_over is_check].
  split; [reflexivity|].
  split; [destruct (current_player s); reflexivity|].
  split; [reflexivity|]. split; [reflexivity|]. split; [reflexivity|].
  split; [eexists; reflexivity|].
  split.
  - intros Hg. match goal with |- (if ?k then true else _) = true => destruct k end;
      [reflexivity | exact Hg].
  - destruct (current_player s); reflexivity.
Qed.

Lemma move_piece_from_ok_state_witness :
  let s' := snd (move_piece_from GameState_new (mkPosition 4 6) (mkPosition 4 4)) in
  gboard s' = snd (move_piece (gboard GameState_new) (mkPosition 4 6) (mkPosition 4 4))
  /\ current_player s' = opposite (current_player GameState_new)
  /\ selected_square s' = None /\ possible_moves s' = []
  /\ config s' = config GameState_new
  /\ (exists n, move_history s' = move_history GameState_new ++ [n])
  /\ (game_over GameState_new = true -> game_over s' = true)
  /\ is_check s' = is_king_in_check (gboard s') (current_player s').
Proof.
  intros s'. apply (move_piece_from_ok_state GameState_new s' _ _ tt).
  subst s'. rewrite (surjective_pairing (move_piece_from _ _ _)) at 1.
  f_equal; vm_compute; reflexivity.
Defined.



(** ** ai.rs *)

Lemma fold_left_flat_map {A B C : Type} (f : A -> C -> A) (h : B -> list C) (l : list B)
    (a : A) :
  fold_left f (flat_map h l) a = fold_left (fun acc b => fold_left f (h b) acc) l a.
Proof.
  revert a. induction l as [|b l IH]; intros a; [reflexivity|].
  cbn [flat_map fold_left]. rewrite fold_left_app. apply IH.
Qed.

Lemma fold_left_map_pair {A B C : Type} (f : A -> B * C -> A) (b : B) (l : list C) (a : A) :
  fold_left f (map (fun c => (b, c)) l) a = fold_left (fun acc c => f acc (b, c)) l a.
Proof.
  revert a. induction l as [|c l IH]; intros a; [reflexivity|]. apply IH.
Qed.

Lemma fold_left_ext_eq {A B : Type} (f g : A -> B -> A) (l : list B) (a : A) :
  (forall acc b, f acc b = g acc b) -> fold_left f l a = fold_left g l a.
Proof.
  intros H. revert a. induction l as [|b l IH]; intros a; [reflexivity|].
  cbn [fold_left]. rewrite H. apply IH.
Qed.

(** The update of [find_best_move] for one simulated move. *)
Definition fbm_update (s : GameState) (depth : nat)
    (acc : option (Position * Position) * Z) (m : Position * Position)
    : option (Position * Position) * Z :=
  match move_piece_from s (fst m) (snd m) with
  | (Ok _, temp_state) =>
      let score := minimax temp_state (depth - 1) false i32_MIN i32_MAX in
      if (snd acc <? score)%Z then (Some m, score) else acc
  | (Err _, _) => acc
  end.

Lemma find_best_move_fold (s : GameState) (depth : nat) :
  find_best_move s depth
  = match fst (fold_left (fbm_update s depth) (all_moves s) (None, i32_MIN)) with
    | Some m => Ok m
    | None => Err "No valid moves found"%string
    end.
Proof.
  unfold find_best_move, all_moves. cbv zeta. rewrite fold_left_flat_map.
  match goal with
  | |- match fst ?A with _ => _ end = match fst ?B with _ => _ end =>
      replace A with B; [reflexivity|]
  end.
  symmetry. apply fold_left_ext_eq. intros acc pos.
  destruct (get_piece (gboard s) pos) as [pc|]; [|reflexivity].
  destruct (Color_eqb (color pc) (current_player s)); [|reflexivity].
  rewrite fold_left_map_pair. apply fold_left_ext_eq. intros acc' t.
  unfold fbm_update. cbn [fst snd]. reflexivity.
Qed.

Lemma fbm_fold_some (s : GameState) (depth : nat) l acc :
  fst acc <> None -> fst (fold_left (fbm_update s depth) l acc) <> None.
Proof.
  revert acc. induction l as [|m l IH]; intros acc H; [exact H|].
  cbn [fold_left]. apply IH. unfold fbm_update.
  destruct (move_piece_from s (fst m) (snd m)) as [[u|e] st]; [|exact H].
  destruct (snd acc <? _)%Z; [discriminate | exact H].
Qed.

Lemma fbm_fold_none (s : GameState) (depth : nat) l o v :
  fst (fold_left (fbm_update s depth) l (o, v)) = None <->
  o = None /\ forall m, In m l ->
    match move_piece_from s (fst m) (snd m) with
    | (Ok _, temp_state) => (minimax temp_state (depth - 1) false i32_MIN i32_MAX <= v)%Z
    | (Err _, _) => True
    end.
Proof.
  revert v. induction l as [|m l IH]; intros v.
  { cbn. split; [intros ->; split; [reflexivity | intros _ []] | intros [-> _]; reflexivity]. }
  cbn [fold_left]. unfold fbm_update at 2.
  destruct (move_piece_from s (fst m) (snd m)) as [[u|e] st] eqn:Em.
  - cbn [snd]. destruct (v <? minimax st (depth - 1) false i32_MIN i32_MAX)%Z eqn:Ev.
    + split.
      * intros H. exfalso. exact (fbm_fold_some s depth l (Some m, _) ltac:(discriminate) H).
      * intros [_ H]. specialize (H m (or_introl eq_refl)). rewrite Em in H.
        apply Z.ltb_lt in Ev. lia.
    + rewrite IH. apply Z.ltb_ge in Ev. split.
      * intros [Ho H]. split; [exact Ho|]. intros m' [<- | Hin]; [rewrite Em; exact Ev|].
        exact (H m' Hin).
      * intros [Ho H]. split; [exact Ho|]. intros m' Hin. exact (H m' (or_intror Hin)).
  - rewrite IH. split.
    + intros [Ho H]. split; [exact Ho|]. intros m' [<- | Hin]; [rewrite Em; exact I|].
      exact (H m' Hin).
    + intros [Ho H]. split; [exact Ho|]. intros m' Hin. exact (H m' (or_intror Hin)).
Qed.

Lemma fbm_fold_in (s : GameState) (depth : nat) (L l : list (Position * Position)) acc :
  (forall m, In m l -> In m L) ->
  (forall m, fst acc = Some m -> In m L) ->
  forall m, fst (fold_left (fbm_update s depth) l acc) = Some m -> In m L.
Proof.
  revert acc. induction l as [|m0 l IH]; intros acc Hl Hacc; [exact Hacc|].
  cbn [fold_left]. apply IH; [intros m Hm; apply Hl; right; exact Hm|].
  unfold fbm_update.
  destruct (move_piece_from s (fst m0) (snd m0)) as [[u|e] st]; [|exact Hacc].
  destruct (snd acc <? _)%Z; [|exact Hacc].
  intros m H. injection H as <-. apply Hl. left. reflexivity.
Qed.

Lemma generated_move_state (s : GameState) (from to : Position) :
  In (from, to) (all_moves s) ->
  move_piece_from s from to = (Ok tt, snd (move_piece_from s from to)).
Proof.
  intros Hin. apply all_moves_in in Hin as [[pc Hp] Ht].
  pose proof (move_piece_from_generated_ok s from to pc Hp Ht) as H.
  destruct (move_piece_from s from to) as [r st]. cbn in H. subst r. reflexivity.
Qed.

(** The sum behind [evaluate_position]'s loop. *)
Lemma fold_left_pair_zero (f g : Z -> Position -> Z) (l : list Position) :
  (forall a p, f a p = (a + f 0 p)%Z) -> (forall a p, g a p = (a + g 0 p)%Z) ->
  (forall p, (f 0 p + g 0 p = 0)%Z) ->
  (fold_left f l 0 + fold_left g l 0 = 0)%Z.
Proof.
  intros Hf Hg H0.
  rewrite (fold_left_as_sum f (fun p => f 0%Z p) Hf),
          (fold_left_as_sum g (fun p => g 0%Z p) Hg).
  induction l as [|p l IH]; [reflexivity|]. cbn [map fold_right].
  specialize (H0 p). lia.
Qed.

Lemma fold_left_abs_bound (f : Z -> Position -> Z) (K : Z) (l : list Position) :
  (forall a p, f a p = (a + f 0 p)%Z) -> (forall p, (Z.abs (f 0 p) <= K)%Z) ->
  (Z.abs (fold_left f l 0) <= K * Z.of_nat (List.length l))%Z.
Proof.
  intros Hf HK. rewrite (fold_left_as_sum f (fun p => f 0%Z p) Hf).
  induction l as [|p l IH]; [cbn; lia|]. cbn [map fold_right List.length].
  specialize (HK p). rewrite Nat2Z.inj_succ. lia.
Qed.

Lemma table_at_bound (T : list (list Z)) (r c : nat) :
  forallb (forallb (fun v => (-50 <=? v) && (v <=? 50)))%Z T = true ->
  (-50 <= table_at T r c <= 50)%Z.
Proof.
  intros HT. rewrite forallb_forall in HT. unfold table_at.
  assert (Hrow : forallb (fun v => (-50 <=? v) && (v <=? 50))%Z (nth r T []) = true).
  { destruct (Nat.lt_ge_cases r (List.length T)) as [H | H].
    - apply HT, nth_In, H.
    - rewrite nth_overflow by exact H. reflexivity. }
  rewrite forallb_forall in Hrow.
  destruct (Nat.lt_ge_cases c (List.length (nth r T []))) as [H | H].
  - specialize (Hrow _ (nth_In _ 0%Z H)). rewrite andb_true_iff, !Z.leb_le in Hrow. lia.
  - rewrite nth_overflow by exact H. lia.
Qed.

Lemma evaluate_position_bounded (s : GameState) (c : Color) :
  (Z.abs (evaluate_position s c) <= 643250)%Z.
Proof.
  assert (HP : forall r c, (-50 <= table_at pawn_position_bonus r c <= 50)%Z)
    by (intros; apply table_at_bound; reflexivity).
  assert (HN : forall r c, (-50 <= table_at knight_position_bonus r c <= 50)%Z)
    by (intros; apply table_at_bound; reflexivity).
  assert (HBi : forall r c, (-50 <= table_at bishop_position_bonus r c <= 50)%Z)
    by (intros; apply table_at_bound; reflexivity).
  unfold evaluate_position. cbv zeta.
  match goal with |- context [fold_left ?F all_positions 0%Z] =>
    assert (HF : forall a p, F a p = (a + F 0%Z p)%Z)
      by (intros a p; cbv beta; destruct (get_piece (gboard s) p) as [pc|];
          [destruct (Color_eqb (color pc) c); lia | lia]);
    assert (HK : forall p, (Z.abs (F 0%Z p) <= 10050)%Z)
      by (intros p; cbv beta; destruct (get_piece (gboard s) p) as [[pt pcol]|];
          [ cbn [piece_type color];
            pose proof (HP (y p) (x p)); pose proof (HP (7 - y p) (x p));
            pose proof (HN (y p) (x p)); pose proof (HN (7 - y p) (x p));
            pose proof (HBi (y p) (x p)); pose proof (HBi (7 - y p) (x p));
            destruct pt, pcol, c; cbn [piece_value Color_eqb]; lia
          | cbn; lia ]);
    pose proof (fold_left_abs_bound F 10050 all_positions HF HK) as HB;
    set (sc := fold_left F all_positions 0%Z) in *
  end.
  replace (Z.of_nat (List.length all_positions)) with 64%Z in HB by reflexivity.
  destruct (is_check s && Color_eqb (current_player s) c); lia.
Qed.

Lemma find_best_move_in_moves (s : GameState) (depth : nat) (m : Position * Position) :
  find_best_move s depth = Ok m -> In m (all_moves s).
Proof.
  rewrite find_best_move_fold. intros H.
  destruct (fst (fold_left (fbm_update s depth) (all_moves s) (None, i32_MIN))) as [m'|]
    eqn:E; [|discriminate].
  injection H as <-.
  apply (fbm_fold_in s depth (all_moves s) (all_moves s) (None, i32_MIN));
    [auto | intros m H; discriminate | exact E].
Qed.

(** [evaluate_position] is antisymmetric: the scores for the two colors cancel,
    up to the check penalty, which applies to exactly one of them (the side to
    move) when the check flag is set. *)
Theorem evaluate_position_antisymmetric (s : GameState) (c : Color) :
  (evaluate_position s c + evaluate_position s (opposite c)
   = - (if is_check s then 50 else 0))%Z.
Proof.
  unfold evaluate_position. cbv zeta.
  match goal with
  | |- ((if _ then (fold_left ?F all_positions 0 - 50)%Z else _)
        + (if _ then (fold_left ?G all_positions 0 - 50)%Z else _))%Z = _ =>
      assert (HF : forall a p, F a p = (a + F 0%Z p)%Z)
        by (intros a p; cbv beta; destruct (get_piece (gboard s) p) as [pc|];
            [destruct (Color_eqb (color pc) c); lia | lia]);
      assert (HG : forall a p, G a p = (a + G 0%Z p)%Z)
        by (intros a p; cbv beta; destruct (get_piece (gboard s) p) as [pc|];
            [destruct (Color_eqb (color pc) (opposite c)); lia | lia]);
      assert (H0 : forall p, (F 0%Z p + G 0%Z p = 0)%Z)
        by (intros p; cbv beta; destruct (get_piece (gboard s) p) as [[pt pcol]|];
            [cbn [piece_type color]; destruct pcol, c; cbn [opposite Color_eqb]; lia
            | lia]);
      pose proof (fold_left_pair_zero F G all_positions HF HG H0) as HZ;
      set (a := fold_left F all_positions 0%Z) in *;
      set (b := fold_left G all_positions 0%Z) in *
  end.
  clearbody a b.
  destruct (is_check s), (current_player s), c; cbn [andb opposite Color_eqb]; lia.
Qed.

(** A move returned by [find_best_move], at any depth, is one of the generated
    moves of the side to move, and [move_piece_from] accepts it. *)
Theorem find_best_move_generated (s : GameState) (depth : nat) (m : Position * Position) :
  find_best_move s depth = Ok m ->
  In m (all_moves s) /\ fst (move_piece_from s (fst m) (snd m)) = Ok tt.
Proof.
  intros H. pose proof (find_best_move_in_moves s depth m H) as Hin.
  split; [exact Hin|]. destruct m as [f t].
  cbn [fst snd]. rewrite (generated_move_state s f t Hin). reflexivity.
Qed.

Lemma find_best_move_generated_witness :
  In (mkPosition 0 4, mkPosition 0 5) (all_moves rook_vs_queen)
  /\ fst (move_piece_from rook_vs_queen (fst (mkPosition 0 4, mkPosition 0 5))
            (snd (mkPosition 0 4, mkPosition 0 5))) = Ok tt.
Proof.
  apply (find_best_move_generated rook_vs_queen 1). vm_compute. reflexivity.
Defined.

(** [find_best_move] fails with "No valid moves found" exactly when no
    generated move scores above [i32::MIN] in the search below it. At the depth
    of 3 used by the Hard AI such scores occur (a side left without moves scores
    [i32::MIN] when maximizing), so the Hard AI can report that no move exists
    while the side to move has one. *)
Theorem find_best_move_err_iff :
  (forall s depth,
     find_best_move s depth = Err "No valid moves found"%string <->
     forall from to, In (from, to) (all_moves s) ->
       (minimax (snd (move_piece_from s from to)) (depth - 1) false i32_MIN i32_MAX
        <= i32_MIN)%Z)
  /\ all_moves pawn_reaching_last_row <> []
  /\ forall r, make_ai_move r pawn_reaching_last_row HARD
               = (Err "No valid moves found"%string, pawn_reaching_last_row).
Proof.
  split; [|split; [vm_compute; discriminate | intros r; vm_compute; reflexivity]].
  intros s depth. rewrite find_best_move_fold.
  transitivity (fst (fold_left (fbm_update s depth) (all_moves s) (None, i32_MIN)) = None).
  { destruct (fst (fold_left (fbm_update s depth) (all_moves s) (None, i32_MIN)));
      split; congruence. }
  rewrite fbm_fold_none. split.
  - intros [_ H] from to Hin. specialize (H _ Hin). cbn [fst snd] in H.
    rewrite (generated_move_state s from to Hin) in H. exact H.
  - intros H. split; [reflexivity|]. intros [from to] Hin. cbn [fst snd].
    rewrite (generated_move_state s from to Hin). exact (H from to Hin).
Qed.

(** At depth 1 the search scores a move by the static evaluation, which stays
    far from [i32::MIN]: [find_best_move] then fails exactly when the side to
    move has no generated move. *)
Theorem find_best_move_depth1_err_iff (s : GameState) :
  find_best_move s 1 = Err "No valid moves found"%string <-> all_moves s = [].
Proof.
  rewrite find_best_move_fold.
  transitivity (fst (fold_left (fbm_update s 1) (all_moves s) (None, i32_MIN)) = None).
  { destruct (fst (fold_left (fbm_update s 1) (all_moves s) (None, i32_MIN)));
      split; congruence. }
  rewrite fbm_fold_none. split.
  - intros [_ H]. destruct (all_moves s) as [|[from to] ms] eqn:Ea; [reflexivity|].
    exfalso. specialize (H (from, to) (or_introl eq_refl)). cbn [fst snd] in H.
    assert (Hin : In (from, to) (all_moves s)) by (rewrite Ea; left; reflexivity).
    rewrite (generated_move_state s from to Hin) in H.
    cbn [Nat.sub minimax] in H.
    pose proof (evaluate_position_bounded (snd (move_piece_from s from to))
                  (current_player (snd (move_piece_from s from to)))).
    unfold i32_MIN in H. lia.
  - intros ->. split; [reflexivity | intros m []].
Qed.

Lemma choose_from_in (r : nat) (l : list (Position * Position)) (e : string) :
  l <> [] -> exists m, choose_from r l e = Ok m /\ In m l.
Proof.
  intros Hl. unfold choose_from.
  assert (Hlt : r mod List.length l < List.length l)
    by (apply Nat.mod_upper_bound; destruct l; [contradiction | discriminate]).
  destruct (nth_error l (r mod List.length l)) as [m|] eqn:E.
  - exists m. split; [reflexivity|]. eapply nth_error_In. exact E.
  - apply nth_error_None in E. lia.
Qed.

Lemma filter_nonempty_source {A} (f : A -> bool) (l : list A) :
  filter f l <> [] -> l <> [].
Proof. intros H ->. apply H. reflexivity. Qed.

Lemma check_moves_sub (s : GameState) (m : Position * Position) :
  In m (check_moves s) -> In m (all_moves s).
Proof. intros Hm. apply filter_In in Hm. apply Hm. Qed.

Lemma capture_moves_sub (s : GameState) (m : Position * Position) :
  In m (capture_moves s) -> In m (all_moves s).
Proof. intros Hm. apply filter_In in Hm. apply Hm. Qed.

Lemma choose_from_play (r : nat) (s : GameState) (l : list (Position * Position))
    (e : string) :
  l <> [] ->
  exists from to, In (from, to) l
    /\ match choose_from r l e with
       | Ok (from, to) => move_piece_from s from to
       | Err e => (Err e, s)
       end = move_piece_from s from to.
Proof.
  intros Hl. destruct (choose_from_in r l e Hl) as ([f t] & Hc & Hin).
  rewrite Hc. exists f, t. split; [exact Hin | reflexivity].
Qed.

Lemma make_medium_ai_move_pick (r : nat) (s : GameState) :
  all_moves s <> [] ->
  exists from to, In (from, to) (all_moves s)
    /\ make_medium_ai_move r s = move_piece_from s from to.
Proof.
  intros Ha. unfold make_medium_ai_move.
  destruct (all_moves s) as [|a al] eqn:Ea; [contradiction|].
  cbv beta iota. rewrite <- Ea.
  destruct (check_moves s) as [|c0 cl] eqn:Ec.
  - cbv beta iota. destruct (capture_moves s) as [|k0 kl] eqn:Ek.
    + cbv beta iota.
      apply (choose_from_play r s (all_moves s)). rewrite Ea. discriminate.
    + cbv beta iota. rewrite <- Ek.
      destruct (choose_from_play r s (capture_moves s) "Failed to select capture move"%string)
        as (f & t & Hin & Heq); [rewrite Ek; discriminate|].
      exists f, t. split; [apply capture_moves_sub; exact Hin | exact Heq].
  - cbv beta iota. rewrite <- Ec.
    destruct (choose_from_play r s (check_moves s) "Failed to select check move"%string)
      as (f & t & Hin & Heq); [rewrite Ec; discriminate|].
    exists f, t. split; [apply check_moves_sub; exact Hin | exact Heq].
Qed.

(** The Medium AI fails with "No valid moves for AI" exactly when the side to
    move has no generated move. Otherwise it plays a move giving check whenever
    one exists, and failing that a capture whenever one exists. *)
Theorem medium_ai_priorities (r : nat) (s : GameState) :
  (fst (make_medium_ai_move r s) = Err "No valid moves for AI"%string <-> all_moves s = [])
  /\ (check_moves s <> [] ->
      exists from to, In (from, to) (check_moves s)
        /\ make_medium_ai_move r s = move_piece_from s from to
        /\ fst (move_piece_from s from to) = Ok tt
        /\ is_check (snd (move_piece_from s from to)) = true)
  /\ (check_moves s = [] -> capture_moves s <> [] ->
      exists from to, In (from, to) (capture_moves s)
        /\ make_medium_ai_move r s = move_piece_from s from to
        /\ get_piece (gboard s) to <> None).
Proof.
  split; [|split].
  - split.
    + intros H. destruct (all_moves s) as [|a al] eqn:Ea; [reflexivity|].
      exfalso. destruct (make_medium_ai_move_pick r s ltac:(rewrite Ea; discriminate))
        as (f & t & Hin & Heq).
      rewrite Heq, (generated_move_state s f t Hin) in H. discriminate.
    + intros Ha. unfold make_medium_ai_move. rewrite Ha. reflexivity.
  - intros Hc. unfold make_medium_ai_move.
    destruct (all_moves s) as [|a al] eqn:Ea.
    { exfalso. apply Hc. unfold check_moves. rewrite Ea. reflexivity. }
    cbv beta iota. rewrite <- Ea.
    destruct (check_moves s) as [|c0 cl] eqn:Ec; [contradiction|].
    cbv beta iota. rewrite <- Ec.
    destruct (choose_from_play r s (check_moves s) "Failed to select check move"%string)
      as (f & t & Hin & Heq); [rewrite Ec; discriminate|].
    exists f, t. split; [exact Hin|]. split; [exact Heq|].
    pose proof (generated_move_state s f t (check_moves_sub s _ Hin)) as Hok.
    split; [rewrite Hok; reflexivity|].
    unfold check_moves in Hin. apply filter_In in Hin as [_ Hin]. cbn [fst snd] in Hin.
    rewrite Hok in Hin. exact Hin.
  - intros Hc Hk. unfold make_medium_ai_move.
    destruct (all_moves s) as [|a al] eqn:Ea.
    { exfalso. apply Hk. unfold capture_moves. rewrite Ea. reflexivity. }
    cbv beta iota. rewrite <- Ea. rewrite Hc. cbv beta iota.
    destruct (capture_moves s) as [|k0 kl] eqn:Ek; [contradiction|].
    cbv beta iota. rewrite <- Ek.
    destruct (choose_from_play r s (capture_moves s) "Failed to select capture move"%string)
      as (f & t & Hin & Heq); [rewrite Ek; discriminate|].
    exists f, t. split; [exact Hin|]. split; [exact Heq|].
    unfold capture_moves in Hin. apply filter_In in Hin as [_ Hin]. cbn [snd] in Hin.
    destruct (get_piece (gboard s) t); discriminate.
Qed.

(** [make_ai_move], at every difficulty: a failure leaves the state unchanged,
    and a success is [move_piece_from] applied to a generated move of the side
    to move. *)
Theorem make_ai_move_outcome (r : nat) (s : GameState) (d : Difficulty) :
  (forall e, fst (make_ai_move r s d) = Err e -> snd (make_ai_move r s d) = s)
  /\ (forall u s', make_ai_move r s d = (Ok u, s') ->
      exists from to, In (from, to) (all_moves s) /\ move_piece_from s from to = (Ok u, s')).
Proof.
  assert (Hplay : forall p, (exists from to, In (from, to) (all_moves s) /\ p = move_piece_from s from to)
            \/ (exists e, p = (Err e, s)) ->
            (forall e, fst p = Err e -> snd p = s)
            /\ (forall u s', p = (Ok u, s') ->
                exists from to, In (from, to) (all_moves s) /\ move_piece_from s from to = (Ok u, s'))).
  { intros p [(f & t & Hin & ->) | (e & ->)].
    - split.
      + intros e H. rewrite (generated_move_state s f t Hin) in H. discriminate.
      + intros u s' H. exists f, t. split; [exact Hin | exact H].
    - split; [reflexivity | intros u s' H; discriminate]. }
  assert (Hd : all_moves s = [] \/ exists m ms, all_moves s = m :: ms)
    by (destruct (all_moves s) as [|m ms]; [left; reflexivity | right; eauto]).
  apply Hplay. destruct d; cbn [make_ai_move].
  - destruct Hd as [Ea | (m & ms & Ea)].
    + right. exists "No valid moves for AI"%string. unfold make_random_move.
      rewrite Ea. reflexivity.
    + left. exact (make_random_move_pick r s m ms Ea).
  - destruct Hd as [Ea | (m & ms & Ea)].
    + right. exists "No valid moves for AI"%string. unfold make_medium_ai_move.
      rewrite Ea. reflexivity.
    + left. apply make_medium_ai_move_pick. rewrite Ea. discriminate.
  - unfold make_hard_ai_move.
    destruct (find_best_move s 3) as [[f t]|e] eqn:Ef.
    + left. exists f, t. split; [apply (find_best_move_in_moves s 3 (f, t) Ef) | reflexivity].
    + right. exists e. reflexivity.
Qed.

(** ** commands.rs *)

(** [commands::move_piece] followed by [commands::undo_move]: the undo stack
    grows by one entry up to its cap of 50, and the undo restores the state from
    before the move, whether the move succeeded or failed. The stack gets back
    its earlier contents, less its oldest entry when the cap dropped it. *)
Theorem cmd_move_then_undo (st : GameState) (history : list GameState)
    (from_x from_y to_x to_y : nat) :
  List.length history <= 50 ->
  List.length (snd (snd (cmd_move_piece (st, history) from_x from_y to_x to_y)))
    = Nat.min (S (List.length history)) 50
  /\ cmd_undo_move (snd (cmd_move_piece (st, history) from_x from_y to_x to_y))
     = (Ok st, (st, if List.length history <? 50 then history else tl history)).
Proof.
  intros Hlen. unfold cmd_move_piece. cbv beta iota zeta.
  destruct (move_piece_from st (mkPosition from_x from_y) (mkPosition to_x to_y))
    as [[u|e] st''];
  cbn [fst snd]; unfold cmd_undo_move, push_history; cbv beta iota zeta;
  rewrite length_app; cbn [List.length];
  (destruct (Nat.ltb_spec 50 (List.length history + 1)) as [Hbig | Hsmall];
   [ destruct history as [|h0 hs]; [cbn in Hbig; lia|];
     cbn [app tl]; rewrite length_app; cbn [List.length] in *;
     rewrite last_opt_snoc, removelast_last;
     replace (S (List.length hs) <? 50) with false by (symmetry; apply Nat.ltb_ge; lia);
     rewrite Nat.min_r by lia; split; [lia | reflexivity]
   | rewrite last_opt_snoc, removelast_last, length_app; cbn [List.length];
     replace (List.length history <? 50) with true by (symmetry; apply Nat.ltb_lt; lia);
     rewrite Nat.min_l by lia; split; [lia | reflexivity] ]).
Qed.

Lemma cmd_move_then_undo_witness :
  List.length (snd (snd (cmd_move_piece (GameState_new, []) 4 6 4 4)))
    = Nat.min (S (List.length (@nil GameState))) 50
  /\ cmd_undo_move (snd (cmd_move_piece (GameState_new, []) 4 6 4 4))
     = (Ok GameState_new,
        (GameState_new, if List.length (@nil GameState) <? 50 then [] else tl [])).
Proof.
  apply (cmd_move_then_undo GameState_new [] 4 6 4 4). cbn. lia.
Defined.

(** ** utils.rs *)

(** [initial_piece_setup] gives, on every square of the board, the piece of
    [ChessBoard::new] with the color swapped (White on rows 0 and 1, Black on
    rows 6 and 7), and its pawn arms answer for any column, also off the board. *)
Theorem initial_piece_setup_swapped (col row : nat) :
  col < 8 -> row < 8 ->
  initial_piece_setup col row
  = option_map (fun pc => mkPiece (piece_type pc) (opposite (color pc)))
      (get_piece ChessBoard_new (mkPosition col row))
  /\ (forall c, initial_piece_setup c 1 = Some (mkPiece Pawn White)
                /\ initial_piece_setup c 6 = Some (mkPiece Pawn Black)).
Proof.
  intros Hc Hr. split.
  - destruct col as [|[|[|[|[|[|[|[|col]]]]]]]]; try (exfalso; lia).
    all: destruct row as [|[|[|[|[|[|[|[|row]]]]]]]]; try (exfalso; lia).
    all: vm_compute; reflexivity.
  - intros c. destruct c as [|[|[|[|[|[|[|[|c]]]]]]]]; split; reflexivity.
Qed.

Lemma initial_piece_setup_swapped_witness :
  initial_piece_setup 4 0
  = option_map (fun pc => mkPiece (piece_type pc) (opposite (color pc)))
      (get_piece ChessBoard_new (mkPosition 4 0))
  /\ (forall c, initial_piece_setup c 1 = Some (mkPiece Pawn White)
                /\ initial_piece_setup c 6 = Some (mkPiece Pawn Black)).
Proof.
  apply initial_piece_setup_swapped; lia.
Defined.

(** ** The notation of a move *)

Lemma string_app_cancel_l (p a b : string) : (p ++ a)%string = (p ++ b)%string -> a = b.
Proof.
  induction p as [|ch p IH]; cbn; [auto|]. intros H. injection H as H. exact (IH H).
Qed.

Lemma char_at_files (i : nat) :
  i < 8 -> exists ch, char_at "abcdefgh"%string i = String ch EmptyString
                      /\ String.get i "abcdefgh"%string = Some ch.
Proof.
  intros Hi. unfold char_at. destruct (String.get i "abcdefgh"%string) as [ch|] eqn:E.
  - exists ch. auto.
  - destruct i as [|[|[|[|[|[|[|[|i]]]]]]]]; try (exfalso; lia); discriminate.
Qed.

Lemma char_at_ranks (i : nat) :
  i < 8 -> exists ch, char_at "87654321"%string i = String ch EmptyString
                      /\ String.get i "87654321"%string = Some ch.
Proof.
  intros Hi. unfold char_at. destruct (String.get i "87654321"%string) as [ch|] eqn:E.
  - exists ch. auto.
  - destruct i as [|[|[|[|[|[|[|[|i]]]]]]]]; try (exfalso; lia); discriminate.
Qed.

Lemma get_files_inj (i j : nat) (ch : Ascii.ascii) :
  i < 8 -> j < 8 -> String.get i "abcdefgh"%string = Some ch ->
  String.get j "abcdefgh"%string = Some ch -> i = j.
Proof.
  intros Hi Hj.
  destruct i as [|[|[|[|[|[|[|[|i]]]]]]]]; try (exfalso; lia).
  all: destruct j as [|[|[|[|[|[|[|[|j]]]]]]]]; try (exfalso; lia).
  all: cbn; intros H1 H2; rewrite <- H1 in H2; first [reflexivity | discriminate].
Qed.

Lemma get_ranks_inj (i j : nat) (ch : Ascii.ascii) :
  i < 8 -> j < 8 -> String.get i "87654321"%string = Some ch ->
  String.get j "87654321"%string = Some ch -> i = j.
Proof.
  intros Hi Hj.
  destruct i as [|[|[|[|[|[|[|[|i]]]]]]]]; try (exfalso; lia).
  all: destruct j as [|[|[|[|[|[|[|[|j]]]]]]]]; try (exfalso; lia).
  all: cbn; intros H1 H2; rewrite <- H1 in H2; first [reflexivity | discriminate].
Qed.

(** [GameState::generate_move_notation] loses nothing: for one piece name, two
    moves between squares of the board get the same notation only when they
    have the same source, the same target and the same capture flag. *)
Theorem generate_move_notation_injective (name : string) (from to from' to' : Position)
    (cap cap' : bool) :
  x from < 8 -> y from < 8 -> x to < 8 -> y to < 8 ->
  x from' < 8 -> y from' < 8 -> x to' < 8 -> y to' < 8 ->
  generate_move_notation name from to cap = generate_move_notation name from' to' cap' ->
  from = from' /\ to = to' /\ cap = cap'.
Proof.
  intros H1 H2 H3 H4 H5 H6 H7 H8 H. unfold generate_move_notation in H. cbv zeta in H.
  apply string_app_cancel_l in H.
  destruct (char_at_files _ H1) as (a1 & E1 & G1), (char_at_ranks _ H2) as (b1 & F1 & R1),
           (char_at_files _ H3) as (a2 & E2 & G2), (char_at_ranks _ H4) as (b2 & F2 & R2),
           (char_at_files _ H5) as (a3 & E3 & G3), (char_at_ranks _ H6) as (b3 & F3 & R3),
           (char_at_files _ H7) as (a4 & E4 & G4), (char_at_ranks _ H8) as (b4 & F4 & R4).
  rewrite E1, F1, E2, F2, E3, F3, E4, F4 in H.
  destruct cap, cap'; cbn in H; injection H as Ha Hb Hc Hd;
    subst; try discriminate.
  all: destruct from as [fx fy], to as [tx ty], from' as [fx' fy'], to' as [tx' ty'];
       cbn [x y] in *.
  all: rewrite (get_files_inj fx fx' _ H1 H5 G1 G3), (get_ranks_inj fy fy' _ H2 H6 R1 R3),
               (get_files_inj tx tx' _ H3 H7 G2 G4), (get_ranks_inj ty ty' _ H4 H8 R2 R4).
  all: auto.
Qed.

Lemma generate_move_notation_injective_witness :
  mkPosition 4 6 = mkPosition 4 6 /\ mkPosition 4 4 = mkPosition 4 4 /\ false = false.
Proof.
  apply (generate_move_notation_injective "Pawn"%string (mkPosition 4 6) (mkPosition 4 4)
           (mkPosition 4 6) (mkPosition 4 4) false false); cbn; first [lia | reflexivity].
Defined.

(** ** Remaining entry points *)

(** [evaluate_position] stays far inside the [i32] range: at most 64 squares
    contribute at most 10050 each, and the check penalty is 50. Its [i32]
    arithmetic never overflows. *)
Theorem evaluate_position_in_i32 (s : GameState) (c : Color) :
  (i32_MIN < - 643250 /\ - 643250 <= evaluate_position s c <= 643250 /\ 643250 < i32_MAX)%Z.
Proof.
  pose proof (evaluate_position_bounded s c). unfold i32_MIN, i32_MAX. lia.
Qed.

(** A fresh game ([GameState::new] on [ChessBoard::new]): White moves first
    with 20 generated moves, each side has 16 pieces, neither side is in check,
    nothing is captured and no square is selected. *)
Theorem new_game_setup :
  current_player GameState_new = White
  /\ List.length (all_moves GameState_new) = 20
  /\ List.length (filter (fun p => match get_piece (gboard GameState_new) p with
                                   | Some pc => Color_eqb (color pc) White
                                   | None => false end) all_positions) = 16
  /\ List.length (filter (fun p => match get_piece (gboard GameState_new) p with
                                   | Some pc => Color_eqb (color pc) Black
                                   | None => false end) all_positions) = 16
  /\ is_king_in_check (gboard GameState_new) White = false
  /\ is_king_in_check (gboard GameState_new) Black = false
  /\ captured_pieces (gboard GameState_new) = []
  /\ selected_square GameState_new = None /\ game_over GameState_new = false.
Proof.
  vm_compute. repeat split; reflexivity.
Qed.
